(** * The form-state engine of webmx-ui ([src/composables/useForm.ts])

    A shallow embedding of [useForm]: the rule evaluator [validateValue],
    the closure state of one engine instance, and the operations that
    the composable returns, followed by the properties of the
    specification that are checked against them.

    Conventions of the model.
    - A JavaScript value is a [JsVal]; numbers are the integer-valued
      ones (plus [NaN]), strings are sequences of code units below 256.
    - A plain object used as a dictionary is an [Obj]: its own
      properties in insertion order.  The operations read a field
      name as an own property, as the language does for every name
      that is not a member of [Object.prototype]; [inherited] tells
      those names, and [Inherit.setFieldValue] follows the lookup of
      the language at them.
    - An [async] function is a computation in the monad [M]: it
      threads the engine state and either returns or raises.  An
      [await] is a sequencing point; no other task is interleaved.
    - The objects that hold form values live in a store ([heap]) and
      are referred to by location, because the caller keeps a
      reference to the initial values it passed in. *)

From Stdlib Require Import ZArith List String Ascii Bool Lia DecimalString.
Import ListNotations.
Open Scope string_scope.
Open Scope list_scope.

#[local] Set Warnings "-register-all".

(** ** JavaScript values *)

Inductive JsVal : Type :=
| VUndefined
| VNull
| VBool (b : bool)
| VNum (z : Z)
| VNaN
| VStr (s : string)
| VArr (elems : list JsVal)
| VObj.

(** [ToBoolean]: what [if (v)], [!v] and [v && ...] test. *)
Definition truthy (v : JsVal) : bool :=
  match v with
  | VUndefined | VNull | VNaN => false
  | VBool b => b
  | VNum z => negb (z =? 0)%Z
  | VStr s => negb (s =? "")
  | VArr _ | VObj => true
  end.

Definition Z_to_string (z : Z) : string := NilZero.string_of_int (Z.to_int z).

(** [ToString], as applied by [RegExp.prototype.test] to its argument. *)
Fixpoint ToString (v : JsVal) : string :=
  match v with
  | VUndefined => "undefined"
  | VNull => "null"
  | VBool true => "true"
  | VBool false => "false"
  | VNum z => Z_to_string z
  | VNaN => "NaN"
  | VStr s => s
  | VArr elems =>
      String.concat ","
        (map (fun e => match e with
                       | VUndefined | VNull => ""
                       | _ => ToString e
                       end) elems)
  | VObj => "[object Object]"
  end.

(** ** Thrown values

    What a [catch (err)] clause of the engine inspects: the properties
    [issues], [errors], [message] and [inner] of the caught value.
    Reading a property of [undefined] or [null] raises a [TypeError]. *)

Record Issue : Type := mkIssue {
  issue_path : list string;
  issue_message : string
}.

Record InnerError : Type := mkInner {
  inner_path : option string;
  inner_message : string
}.

Record ErrObj : Type := mkErr {
  err_issues : option (list Issue);
  err_errors : option (list Issue);
  err_message : option string;
  err_inner : option (list InnerError)
}.

Inductive Thrown : Type :=
| ThrownNullish
| ThrownObj (e : ErrObj).

Definition Error (msg : string) : Thrown :=
  ThrownObj (mkErr None None (Some msg) None).

Definition TypeError (msg : string) : Thrown := Error msg.

Inductive Res (A : Type) : Type :=
| Ok (a : A)
| Throw (e : Thrown).
Arguments Ok {A} a.
Arguments Throw {A} e.

(** ** Objects as ordered dictionaries *)

Definition Obj (A : Type) : Type := list (string * A).

Fixpoint obj_get {A} (k : string) (o : Obj A) : option A :=
  match o with
  | [] => None
  | (k', v) :: rest => if k' =? k then Some v else obj_get k rest
  end.

(** [o[k] = v]: an existing property keeps its position, a new one is
    appended. *)
Fixpoint obj_set {A} (k : string) (v : A) (o : Obj A) : Obj A :=
  match o with
  | [] => [(k, v)]
  | (k', v') :: rest =>
      if k' =? k then (k', v) :: rest else (k', v') :: obj_set k v rest
  end.

(** [delete o[k]] *)
Definition obj_delete {A} (k : string) (o : Obj A) : Obj A :=
  filter (fun p => negb (fst p =? k)) o.

Definition obj_keys {A} (o : Obj A) : list string := map fst o.

(** [Object.entries(src).forEach(([k, v]) => dst[k] = f(v))] *)
Definition obj_assign_each {A B} (f : A -> B) (src : Obj A) (dst : Obj B) : Obj B :=
  fold_left (fun acc kv => obj_set (fst kv) (f (snd kv)) acc) src dst.

(** ** Validation rules *)

Inductive RuleType : Type :=
| required | email | min | max | minLength | maxLength | pattern | custom.

Inductive FnResult : Type :=
| Returns (truthy_result : bool)
| Raises (e : Thrown).

(** The [value?: any] of a rule: absent, a number, a regular expression
    (its [test] on the coerced string) or a predicate. *)
Inductive RuleValue : Type :=
| RvUndefined
| RvNum (n : Z)
| RvRegExp (test : string -> bool)
| RvFn (f : JsVal -> FnResult).

Record ValidationRule : Type := mkRule {
  type : RuleType;
  value : RuleValue;
  message : string
}.

(** *** The e-mail pattern [/^[^\s@]+@[^\s@]+\.[^\s@]+$/] *)

Definition is_space (c : ascii) : bool :=
  let n := nat_of_ascii c in
  ((n =? 9) || (n =? 10) || (n =? 11) || (n =? 12) || (n =? 13)
   || (n =? 32) || (n =? 160))%nat.

(** [[^\s@]] *)
Definition is_plain (c : ascii) : bool :=
  negb (is_space c) && negb (c =? "@")%char.

(** [[^\s@]+$] *)
Fixpoint plain_plus (s : string) : bool :=
  match s with
  | EmptyString => false
  | String c EmptyString => is_plain c
  | String c rest => is_plain c && plain_plus rest
  end.

(** [[^\s@]+\.[^\s@]+$]; [seen] records that the first group already
    holds a character. *)
Fixpoint domain_part (seen : bool) (s : string) : bool :=
  match s with
  | EmptyString => false
  | String c rest =>
      is_plain c
      && ((seen && (c =? ".")%char && plain_plus rest) || domain_part true rest)
  end.

(** [^[^\s@]+@] followed by the domain part. *)
Fixpoint local_part (seen : bool) (s : string) : bool :=
  match s with
  | EmptyString => false
  | String c rest =>
      if (c =? "@")%char then seen && domain_part false rest
      else is_plain c && local_part true rest
  end.

Definition email_test (s : string) : bool := local_part false s.

(** *** [validateValue] *)

(** [value < rule.value] and [value > rule.value] for a number on the
    left: anything but a number on the right converts to [NaN]. *)
Definition num_lt (z : Z) (rv : RuleValue) : bool :=
  match rv with RvNum n => (z <? n)%Z | _ => false end.

Definition num_gt (z : Z) (rv : RuleValue) : bool :=
  match rv with RvNum n => (z >? n)%Z | _ => false end.

(** One [case] of the [switch]: [Ok true] when the branch reaches
    [return rule.message], [Ok false] when it reaches [break]. *)
Definition rule_fails (v : JsVal) (rule : ValidationRule) : Res bool :=
  match type rule with
  | required =>
      Ok match v with
         | VUndefined | VNull | VStr "" | VArr [] => true
         | _ => false
         end
  | email => Ok (truthy v && negb (email_test (ToString v)))
  | min =>
      Ok match v with VNum z => num_lt z (value rule) | _ => false end
  | max =>
      Ok match v with VNum z => num_gt z (value rule) | _ => false end
  | minLength =>
      Ok match v with
         | VStr s => num_lt (Z.of_nat (String.length s)) (value rule)
         | _ => false
         end
  | maxLength =>
      Ok match v with
         | VStr s => num_gt (Z.of_nat (String.length s)) (value rule)
         | _ => false
         end
  | pattern =>
      if truthy v then
        match value rule with
        | RvRegExp test => Ok (negb (test (ToString v)))
        | _ => Throw (TypeError "rule.value.test is not a function")
        end
      else Ok false
  | custom =>
      if truthy v then
        match value rule with
        | RvFn f =>
            match f v with
            | Returns b => Ok (negb b)
            | Raises e => Throw e
            end
        | _ => Throw (TypeError "rule.value is not a function")
        end
      else Ok false
  end.

Fixpoint validateValue (v : JsVal) (rules : list ValidationRule)
  : Res (option string) :=
  match rules with
  | [] => Ok None
  | rule :: rest =>
      match rule_fails v rule with
      | Throw e => Throw e
      | Ok true => Ok (Some (message rule))
      | Ok false => validateValue v rest
      end
  end.

(** ** The store of value objects *)

Definition loc : Type := nat.
Definition ValuesObj : Type := Obj JsVal.
Definition Heap : Type := list ValuesObj.

Definition heap_get (l : loc) (h : Heap) : ValuesObj := nth l h [].

Fixpoint heap_set (l : loc) (o : ValuesObj) (h : Heap) : Heap :=
  match h, l with
  | [], _ => []
  | _ :: rest, O => o :: rest
  | x :: rest, S l' => x :: heap_set l' o rest
  end.

(** A new object: [{ ...o }] or [{}]. *)
Definition heap_alloc (o : ValuesObj) (h : Heap) : loc * Heap :=
  (List.length h, h ++ [o]).

(** [o[name]] read from a values object: [undefined] when absent. *)
Definition js_get (name : string) (o : ValuesObj) : JsVal :=
  match obj_get name o with
  | Some v => v
  | None => VUndefined
  end.

(** ** Engine state *)

Record FieldMeta : Type := mkMeta {
  touched : bool;
  dirty : bool;
  error : option string;
  valid : bool;
  pending : bool
}.

(** [{ touched: t, dirty: false, valid: true, pending: false }] *)
Definition new_meta (t : bool) : FieldMeta := mkMeta t false None true false.

(** What the engine does to the world outside its own refs. *)
Inductive Effect : Type :=
| PreventDefault
| StopPropagation
| ConsoleError (label : string) (e : Thrown).

(** The refs created by one call of [useForm], the store they point
    into, and the effects emitted so far. *)
Record State : Type := mkState {
  heap : Heap;
  values : loc;
  errors : Obj (list string);
  fieldsMeta : Obj FieldMeta;
  isSubmitting : bool;
  isValidating : bool;
  submitCount : Z;
  fieldRules : Obj (list ValidationRule);
  trace : list Effect
}.

Definition set_heap (x : Heap) (s : State) : State :=
  mkState x (values s) (errors s) (fieldsMeta s) (isSubmitting s)
    (isValidating s) (submitCount s) (fieldRules s) (trace s).
Definition set_values (x : loc) (s : State) : State :=
  mkState (heap s) x (errors s) (fieldsMeta s) (isSubmitting s)
    (isValidating s) (submitCount s) (fieldRules s) (trace s).
Definition set_errors (x : Obj (list string)) (s : State) : State :=
  mkState (heap s) (values s) x (fieldsMeta s) (isSubmitting s)
    (isValidating s) (submitCount s) (fieldRules s) (trace s).
Definition set_fieldsMeta (x : Obj FieldMeta) (s : State) : State :=
  mkState (heap s) (values s) (errors s) x (isSubmitting s)
    (isValidating s) (submitCount s) (fieldRules s) (trace s).
Definition set_isSubmitting (x : bool) (s : State) : State :=
  mkState (heap s) (values s) (errors s) (fieldsMeta s) x
    (isValidating s) (submitCount s) (fieldRules s) (trace s).
Definition set_isValidating (x : bool) (s : State) : State :=
  mkState (heap s) (values s) (errors s) (fieldsMeta s) (isSubmitting s)
    x (submitCount s) (fieldRules s) (trace s).
Definition set_submitCount (x : Z) (s : State) : State :=
  mkState (heap s) (values s) (errors s) (fieldsMeta s) (isSubmitting s)
    (isValidating s) x (fieldRules s) (trace s).
Definition set_fieldRules (x : Obj (list ValidationRule)) (s : State) : State :=
  mkState (heap s) (values s) (errors s) (fieldsMeta s) (isSubmitting s)
    (isValidating s) (submitCount s) x (trace s).
Definition emit (x : Effect) (s : State) : State :=
  mkState (heap s) (values s) (errors s) (fieldsMeta s) (isSubmitting s)
    (isValidating s) (submitCount s) (fieldRules s) (trace s ++ [x]).

(** The object [values.value] points to. *)
Definition values_obj (s : State) : ValuesObj := heap_get (values s) (heap s).

(** [values.value[name] = v] *)
Definition write_value (name : string) (v : JsVal) (s : State) : State :=
  set_heap (heap_set (values s) (obj_set name v (values_obj s)) (heap s)) s.

(** ** The monad of engine operations *)

Definition M (A : Type) : Type := State -> Res A * State.

Definition ret {A} (a : A) : M A := fun s => (Ok a, s).

Definition bind {A B} (m : M A) (k : A -> M B) : M B :=
  fun s =>
    match m s with
    | (Ok a, s') => k a s'
    | (Throw e, s') => (Throw e, s')
    end.

Definition throw {A} (e : Thrown) : M A := fun s => (Throw e, s).

(** [try { m } catch (err) { handler err }] *)
Definition try_catch {A} (m : M A) (handler : Thrown -> M A) : M A :=
  fun s =>
    match m s with
    | (Ok a, s') => (Ok a, s')
    | (Throw e, s') => handler e s'
    end.

Definition gets {A} (f : State -> A) : M A := fun s => (Ok (f s), s).

Definition modify (f : State -> State) : M unit := fun s => (Ok tt, f s).

(** Awaiting a promise that is already settled. *)
Definition await {A} (r : Res A) : M A := fun s => (r, s).

(** A call whose promise nobody awaits: its effects on the state
    remain, its result and its rejection are dropped. *)
Definition detached {A} (m : M A) : M unit := fun s => (Ok tt, snd (m s)).

Declare Scope js_scope.
Delimit Scope js_scope with js.
Notation "x <- m ;; k" := (bind m (fun x => k))
  (at level 61, m at next level, right associativity) : js_scope.
Notation "m ;; k" := (bind m (fun _ => k))
  (at level 61, right associativity) : js_scope.
Open Scope js_scope.

(** [Object.entries(o).forEach(([k, v]) => f(k, v))] *)
Fixpoint forEach {A} (f : string -> A -> M unit) (o : Obj A) : M unit :=
  match o with
  | [] => ret tt
  | (k, v) :: rest => f k v ;; forEach f rest
  end.

(** ** Schemas and callbacks

    The external validators are black boxes: a call on the current
    values either resolves or rejects with the value thrown. *)

Record ZodSchema : Type := mkZod {
  parseAsync : ValuesObj -> Res unit
}.

Record AnyObjectSchema : Type := mkYup {
  validateAt : string -> ValuesObj -> Res unit;
  validate_all : ValuesObj -> Res unit
}.

(** [ZodSchema | AnyObjectSchema | Record<string, ValidationRule[]>];
    the probes for ['_def'] and ['__isYupSchema__'] tell the first two
    from a rules mapping.  The mapping is held by contents: that
    [fieldRules.value] is the caller's schema object is not modelled. *)
Inductive Schema : Type :=
| SZod (z : ZodSchema)
| SYup (y : AnyObjectSchema)
| SRules (r : Obj (list ValidationRule)).

(** [Partial<FormState>]; [values] is a reference to an object of the
    caller. *)
Module PartialState.
Record t : Type := make {
  errors : option (Obj string);
  touched : option (Obj bool);
  values : option loc;
  submitCount : option Z
}.
End PartialState.

Module SubmissionContext.
Record t : Type := make {
  resetForm : option PartialState.t -> M unit;
  setErrors : Obj string -> M unit;
  setFieldError : string -> string -> M unit;
  setFieldValue : string -> JsVal -> M unit;
  setValues : Obj JsVal -> M unit;
  setFieldTouched : string -> bool -> M unit;
  setTouched : Obj bool -> M unit
}.
End SubmissionContext.

(** [(values, ctx) => void | Promise<void>]: the callback receives the
    reference [values.value] and the submission context; being a
    closure of the caller it is an arbitrary computation in [M]. *)
Definition SubmitCallback : Type := loc -> SubmissionContext.t -> M unit.

(** [(errors) => void] *)
Definition InvalidCallback : Type := Obj (list string) -> M unit.

(** The constants captured by the closures of one engine instance. *)
Record Engine : Type := mkEngine {
  initialValues : loc;
  activeSchema : option Schema;
  onSubmit : option SubmitCallback
}.

Definition isZodSchema (eng : Engine) : bool :=
  match activeSchema eng with Some (SZod _) => true | _ => false end.

Definition isYupSchema (eng : Engine) : bool :=
  match activeSchema eng with Some (SYup _) => true | _ => false end.

(** ** The operations returned by [useForm] *)

(** [if (!fieldsMeta.value[name]) fieldsMeta.value[name] = {...}] *)
Definition ensure_meta (name : string) (t : bool) : M unit :=
  fm <- gets fieldsMeta ;;
  match obj_get name fm with
  | Some _ => ret tt
  | None => modify (fun s => set_fieldsMeta (obj_set name (new_meta t) (fieldsMeta s)) s)
  end.

(** An assignment to one property of [fieldsMeta.value[name]]. *)
Definition update_meta (name : string) (f : FieldMeta -> FieldMeta) : M unit :=
  modify (fun s =>
    match obj_get name (fieldsMeta s) with
    | Some m => set_fieldsMeta (obj_set name (f m) (fieldsMeta s)) s
    | None => s
    end).

Definition with_touched (t : bool) (m : FieldMeta) : FieldMeta :=
  mkMeta t (dirty m) (error m) (valid m) (pending m).
Definition with_dirty (d : bool) (m : FieldMeta) : FieldMeta :=
  mkMeta (touched m) d (error m) (valid m) (pending m).
Definition with_error (e : option string) (m : FieldMeta) : FieldMeta :=
  mkMeta (touched m) (dirty m) e (valid m) (pending m).
Definition with_valid (v : bool) (m : FieldMeta) : FieldMeta :=
  mkMeta (touched m) (dirty m) (error m) v (pending m).

Definition setFieldValue (name : string) (v : JsVal) : M unit :=
  modify (write_value name v) ;;
  ensure_meta name false ;;
  update_meta name (with_dirty true).

Definition setValues (fields : Obj JsVal) : M unit :=
  forEach setFieldValue fields.

Definition setFieldError (name : string) (err : string) : M unit :=
  modify (fun s => set_errors (obj_set name [err] (errors s)) s).

Definition setErrors (fields : Obj string) : M unit :=
  forEach setFieldError fields.

(** [errors.value = { ...errors.value, ...serverErrors }] *)
Definition setServerErrors (serverErrors : Obj (list string)) : M unit :=
  modify (fun s =>
    set_errors (obj_assign_each (fun l => l) serverErrors (errors s)) s).

Definition setFieldTouched (name : string) (isTouched : bool) : M unit :=
  fm <- gets fieldsMeta ;;
  match obj_get name fm with
  | None =>
      modify (fun s => set_fieldsMeta (obj_set name (new_meta isTouched) (fieldsMeta s)) s)
  | Some _ => update_meta name (with_touched isTouched)
  end.

Definition setTouched (fields : Obj bool) : M unit :=
  forEach setFieldTouched fields.

(** [errors.value[name]?.[0]] *)
Definition first_error (name : string) (bag : Obj (list string)) : option string :=
  match obj_get name bag with
  | Some msgs => hd_error msgs
  | None => None
  end.

Definition getFieldError (name : string) : M (option string) :=
  gets (fun s => first_error name (errors s)).

(** [!fieldsMeta.value[name].error] *)
Definition no_error (e : option string) : bool :=
  match e with
  | Some msg => msg =? ""
  | None => true
  end.

Definition getFieldMeta (name : string) : M FieldMeta :=
  ensure_meta name false ;;
  e <- getFieldError name ;;
  update_meta name (with_error e) ;;
  update_meta name (with_valid (no_error e)) ;;
  gets (fun s =>
    match obj_get name (fieldsMeta s) with
    | Some m => m
    | None => new_meta false
    end).

(** *** Validation *)

(** [{ valid, errors }] as returned by [validateField]. *)
Record FieldResult : Type := mkFieldResult {
  field_valid : bool;
  field_errors : list string
}.

(** [{ valid, errors }] as returned by [validate]; a message is absent
    where [errors.value[key][0]] is [undefined]. *)
Record FormResult : Type := mkFormResult {
  form_valid : bool;
  form_errors : Obj (option string)
}.

Definition delete_error (name : string) : M unit :=
  modify (fun s => set_errors (obj_delete name (errors s)) s).

(** [err.issues || err.errors] *)
Definition issues_of (err : Thrown) : M (option (list Issue)) :=
  match err with
  | ThrownNullish => throw (TypeError "Cannot read properties of undefined")
  | ThrownObj e =>
      ret match err_issues e with
          | Some l => Some l
          | None => err_errors e
          end
  end.

(** [err.message] *)
Definition message_of (err : Thrown) : M (option string) :=
  match err with
  | ThrownNullish => throw (TypeError "Cannot read properties of undefined")
  | ThrownObj e => ret (err_message e)
  end.

(** [err.inner && Array.isArray(err.inner)] *)
Definition inner_of (err : Thrown) : M (option (list InnerError)) :=
  match err with
  | ThrownNullish => throw (TypeError "Cannot read properties of undefined")
  | ThrownObj e => ret (err_inner e)
  end.

(** [e.path[0] === name] *)
Definition path_is (name : string) (e : Issue) : bool :=
  match issue_path e with
  | p :: _ => p =? name
  | [] => false
  end.

(** The property key an optional string is used as. *)
Definition as_key (p : option string) : string :=
  match p with
  | Some k => k
  | None => "undefined"
  end.

(** [if (!errors.value[k]) errors.value[k] = []; errors.value[k].push(msg)] *)
Definition push_error (k : string) (msg : string) : M unit :=
  modify (fun s =>
    match obj_get k (errors s) with
    | Some msgs => set_errors (obj_set k (msgs ++ [msg]) (errors s)) s
    | None => set_errors (obj_set k [msg] (errors s)) s
    end).

(** [Object.keys(errors.value).forEach(key => simpleErrors[key] = errors.value[key][0])] *)
Definition simple_errors (bag : Obj (list string)) : Obj (option string) :=
  fold_left (fun acc key => obj_set key (first_error key bag) acc)
    (obj_keys bag) [].

Definition field_ok : FieldResult := mkFieldResult true [].

(** The rules part of [validateField], reached when no external
    schema returned before it. *)
Definition validateField_rules (name : string)
    (rulesToUse : option (list ValidationRule)) (v : JsVal) : M FieldResult :=
  match rulesToUse with
  | Some rs =>
      err <- await (validateValue v rs) ;;
      match err with
      | Some msg =>
          if negb (msg =? "") then
            modify (fun s => set_errors (obj_set name [msg] (errors s)) s) ;;
            ret (mkFieldResult false [msg])
          else
            delete_error name ;; ret field_ok
      | None => delete_error name ;; ret field_ok
      end
  | None => ret field_ok
  end.

Definition validateField (eng : Engine) (name : string)
    (rules : option (list ValidationRule)) : M FieldResult :=
  vals <- gets values_obj ;;
  let v := js_get name vals in
  registered <- gets (fun s => obj_get name (fieldRules s)) ;;
  let rulesToUse := match rules with Some r => Some r | None => registered end in
  match activeSchema eng with
  | Some (SZod z) =>
      try_catch
        (await (parseAsync z vals) ;;
         delete_error name ;;
         ret field_ok)
        (fun err =>
           issues <- issues_of err ;;
           match
             match issues with
             | Some l => find (path_is name) l
             | None => None
             end
           with
           | Some fieldError =>
               modify (fun s =>
                 set_errors (obj_set name [issue_message fieldError] (errors s)) s) ;;
               ret (mkFieldResult false [issue_message fieldError])
           | None => delete_error name ;; ret field_ok
           end)
  | Some (SYup y) =>
      returned <-
        try_catch
          (await (validateAt y name vals) ;;
           delete_error name ;;
           ret (Some field_ok))
          (fun err =>
             msg <- message_of err ;;
             match msg with
             | Some m =>
                 if negb (m =? "") then
                   modify (fun s => set_errors (obj_set name [m] (errors s)) s) ;;
                   ret (Some (mkFieldResult false [m]))
                 else ret None
             | None => ret None
             end) ;;
      match returned with
      | Some result => ret result
      | None => validateField_rules name rulesToUse v
      end
  | _ => validateField_rules name rulesToUse v
  end.

(** The conversion that ends [validate]. *)
Definition simplified (ok : bool) : M FormResult :=
  bag <- gets errors ;;
  ret (mkFormResult ok (simple_errors bag)).

(** [for (const [fieldName, rules] of Object.entries(fieldRules.value))] *)
Fixpoint validate_fields (eng : Engine)
    (entries : Obj (list ValidationRule)) (isValid : bool) : M bool :=
  match entries with
  | [] => ret isValid
  | (fieldName, rules) :: rest =>
      result <- validateField eng fieldName (Some rules) ;;
      validate_fields eng rest (if field_valid result then isValid else false)
  end.

Definition validate (eng : Engine) : M FormResult :=
  modify (set_isValidating true) ;;
  modify (set_errors []) ;;
  match activeSchema eng with
  | Some (SZod z) =>
      try_catch
        (vals <- gets values_obj ;;
         await (parseAsync z vals) ;;
         modify (set_isValidating false) ;;
         ret (mkFormResult true []))
        (fun err =>
           issues <- issues_of err ;;
           match issues with
           | Some l =>
               fold_right
                 (fun e k => push_error (as_key (hd_error (issue_path e))) (issue_message e) ;; k)
                 (ret tt) l
           | None => ret tt
           end ;;
           modify (set_isValidating false) ;;
           simplified false)
  | Some (SYup y) =>
      try_catch
        (vals <- gets values_obj ;;
         await (validate_all y vals) ;;
         modify (set_isValidating false) ;;
         ret (mkFormResult true []))
        (fun err =>
           inner <- inner_of err ;;
           match inner with
           | Some l =>
               fold_right
                 (fun e k => push_error (as_key (inner_path e)) (inner_message e) ;; k)
                 (ret tt) l
           | None => ret tt
           end ;;
           modify (set_isValidating false) ;;
           simplified false)
  | _ =>
      entries <- gets fieldRules ;;
      isValid <- validate_fields eng entries true ;;
      modify (set_isValidating false) ;;
      simplified isValid
  end.

(** *** Reset *)

(** [state?.p] *)
Definition opt_field {A} (p : PartialState.t -> option A)
    (state : option PartialState.t) : option A :=
  match state with
  | Some st => p st
  | None => None
  end.

Definition resetForm (eng : Engine) (state : option PartialState.t) : M unit :=
  (* values.value = { ...(state?.values || initialValues) } *)
  modify (fun s =>
    let source :=
      match opt_field PartialState.values state with
      | Some l => l
      | None => initialValues eng
      end in
    let (fresh, h) := heap_alloc (heap_get source (heap s)) (heap s) in
    set_values fresh (set_heap h s)) ;;
  modify (set_errors []) ;;
  match opt_field PartialState.errors state with
  | Some errs =>
      modify (fun s => set_errors (obj_assign_each (fun msg => [msg]) errs (errors s)) s)
  | None => ret tt
  end ;;
  modify (set_fieldsMeta []) ;;
  match opt_field PartialState.touched state with
  | Some ts =>
      modify (fun s => set_fieldsMeta (obj_assign_each new_meta ts (fieldsMeta s)) s)
  | None => ret tt
  end ;;
  modify (set_isSubmitting false) ;;
  modify (set_isValidating false) ;;
  modify (set_submitCount
    match opt_field PartialState.submitCount state with
    | Some n => n
    | None => 0%Z
    end).

Definition handleReset (eng : Engine) : M unit := resetForm eng None.

(** *** Submission *)

Definition submissionContext (eng : Engine) : SubmissionContext.t :=
  SubmissionContext.make (resetForm eng) setErrors setFieldError
    setFieldValue setValues setFieldTouched setTouched.

(** The optional DOM event handed to a submit handler. *)
Inductive Event : Type := DomEvent.

Definition handleSubmit (eng : Engine)
    (onValid : option SubmitCallback) (onInvalid : option InvalidCallback)
    (e : option Event) : M unit :=
  match e with
  | Some _ => modify (emit PreventDefault) ;; modify (emit StopPropagation)
  | None => ret tt
  end ;;
  modify (set_isSubmitting true) ;;
  modify (fun s => set_submitCount (submitCount s + 1)%Z s) ;;
  result <- validate eng ;;
  (if form_valid result then
     try_catch
       match onValid with
       | Some cb => vals <- gets values ;; cb vals (submissionContext eng)
       | None =>
           match onSubmit eng with
           | Some cb => vals <- gets values ;; cb vals (submissionContext eng)
           | None => ret tt
           end
       end
       (fun err => modify (emit (ConsoleError "Form submission error:" err)))
   else
     match onInvalid with
     | Some cb => bag <- gets errors ;; cb bag
     | None => ret tt
     end) ;;
  modify (set_isSubmitting false).

Definition submitForm (eng : Engine) (e : option Event) : M unit :=
  handleSubmit eng None None e.

(** *** Field binding *)

Inductive ValidateOn : Type := blur | change | submit.

Record RegisterOptions : Type := mkRegisterOptions {
  rules : option (list ValidationRule);
  validateOn : option ValidateOn
}.

(** The object returned by [register]. *)
Record Binding : Type := mkBinding {
  binding_value : M JsVal;
  binding_name : string;
  onInput : string -> M unit;
  onBlur : M unit
}.

(** The object literal that [register] returns. *)
Definition binding (eng : Engine) (name : string)
    (rules : option (list ValidationRule)) (validateOn : ValidateOn) : Binding :=
  {|
    binding_value := gets (fun s => js_get name (values_obj s));
    binding_name := name;
    onInput := fun target_value =>
      setFieldValue name (VStr target_value) ;;
      match validateOn with
      | change => detached (validateField eng name rules)
      | _ => ret tt
      end;
    onBlur :=
      ensure_meta name false ;;
      update_meta name (with_touched true) ;;
      match validateOn with
      | blur => detached (validateField eng name rules)
      | _ => ret tt
      end
  |}.

Definition register (eng : Engine) (name : string)
    (options : option RegisterOptions) : M Binding :=
  let rules :=
    match options with Some o => rules o | None => None end in
  let validateOn :=
    match options with
    | Some o => match validateOn o with Some m => m | None => blur end
    | None => blur
    end in
  match rules with
  | Some rs => modify (fun s => set_fieldRules (obj_set name rs (fieldRules s)) s)
  | None => ret tt
  end ;;
  vals <- gets values_obj ;;
  (if negb (truthy (js_get name vals))
   then modify (write_value name (VStr ""))
   else ret tt) ;;
  ret (binding eng name rules validateOn).

(** *** Construction *)

Module Options.
Record t : Type := make {
  initialValues : option loc;
  initialErrors : option (Obj string);
  initialTouched : option (Obj bool);
  validationSchema : option Schema;
  schema : option Schema;
  validateOnMount : option bool;
  onSubmit : option SubmitCallback
}.
End Options.

(** [validationSchema || schema] *)
Definition active_schema (options : Options.t) : option Schema :=
  match Options.validationSchema options with
  | Some s => Some s
  | None => Options.schema options
  end.

(** [useForm(options)], called in a store [h] that holds the objects
    of the caller.  The [validate()] started by [validateOnMount] is
    run to its end. *)
Definition useForm (h : Heap) (options : Options.t) : Engine * State :=
  let (initial, h1) :=
    match Options.initialValues options with
    | Some l => (l, h)
    | None => heap_alloc [] h
    end in
  let activeSchema := active_schema options in
  let (vals, h2) := heap_alloc (heap_get initial h1) h1 in
  let errs :=
    match Options.initialErrors options with
    | Some ie => obj_assign_each (fun msg => [msg]) ie []
    | None => []
    end in
  let eng := mkEngine initial activeSchema (Options.onSubmit options) in
  let s0 := mkState h2 vals errs [] false false 0%Z
              match activeSchema with
              | Some (SRules r) => r
              | _ => []
              end [] in
  (* the statements of the loop over [initialTouched] are those of
     [setFieldTouched] *)
  let s1 :=
    match Options.initialTouched options with
    | Some it => snd (setTouched it s0)
    | None => s0
    end in
  match Options.validateOnMount options with
  | Some true => (eng, snd (validate eng s1))
  | _ => (eng, s1)
  end.

(** ** Clients of an engine

    A caller drives an engine through the operations above.  Callbacks
    that act on the form through their submission context are
    scripts: a sequence of context calls, after which the callback
    returns or raises. *)

Inductive CtxCall : Type :=
| CtxResetForm (state : option PartialState.t)
| CtxSetErrors (fields : Obj string)
| CtxSetFieldError (name : string) (err : string)
| CtxSetFieldValue (name : string) (v : JsVal)
| CtxSetValues (fields : Obj JsVal)
| CtxSetFieldTouched (name : string) (isTouched : bool)
| CtxSetTouched (fields : Obj bool).

Definition ctx_call (ctx : SubmissionContext.t) (c : CtxCall) : M unit :=
  match c with
  | CtxResetForm state => SubmissionContext.resetForm ctx state
  | CtxSetErrors fields => SubmissionContext.setErrors ctx fields
  | CtxSetFieldError name err => SubmissionContext.setFieldError ctx name err
  | CtxSetFieldValue name v => SubmissionContext.setFieldValue ctx name v
  | CtxSetValues fields => SubmissionContext.setValues ctx fields
  | CtxSetFieldTouched name t => SubmissionContext.setFieldTouched ctx name t
  | CtxSetTouched fields => SubmissionContext.setTouched ctx fields
  end.

Record Script : Type := mkScript {
  calls : list CtxCall;
  failure : option Thrown
}.

Fixpoint ctx_calls (ctx : SubmissionContext.t) (cs : list CtxCall) : M unit :=
  match cs with
  | [] => ret tt
  | c :: rest => ctx_call ctx c ;; ctx_calls ctx rest
  end.

Definition run_script (ctx : SubmissionContext.t) (sc : Script) : M unit :=
  ctx_calls ctx (calls sc) ;;
  match failure sc with
  | Some e => throw e
  | None => ret tt
  end.

Definition script_callback (sc : Script) : SubmitCallback :=
  fun _ ctx => run_script ctx sc.

(** An [onInvalid] callback holds the form in its closure. *)
Definition script_invalid (eng : Engine) (sc : Script) : InvalidCallback :=
  fun _ => run_script (submissionContext eng) sc.

(** What a caller does with the binding that [register] returned. *)
Inductive BindingUse : Type :=
| UseNothing
| UseValue
| UseInput (target_value : string)
| UseBlur.

(** What the caller does with the form: a call of one of its
    operations, or a change of the object it passed as
    [initialValues], which it still holds. *)
Inductive Op : Type :=
| CallSetFieldValue (name : string) (v : JsVal)
| CallSetValues (fields : Obj JsVal)
| CallSetFieldError (name : string) (err : string)
| CallSetErrors (fields : Obj string)
| CallSetServerErrors (serverErrors : Obj (list string))
| CallSetFieldTouched (name : string) (isTouched : bool)
| CallSetTouched (fields : Obj bool)
| CallGetFieldError (name : string)
| CallGetFieldMeta (name : string)
| CallValidateField (name : string) (rs : option (list ValidationRule))
| CallValidate
| CallHandleSubmit (onValid onInvalid : option Script) (e : option Event)
| CallSubmitForm (e : option Event)
| CallHandleReset
| CallResetForm (state : option PartialState.t)
| CallRegister (name : string) (options : option RegisterOptions) (use : BindingUse)
| MutateInitialValues (contents : ValuesObj).

(** The caller assigns to or deletes properties of the object it
    passed as [initialValues]; the object then has [contents]. *)
Definition write_initial (eng : Engine) (contents : ValuesObj) (s : State)
  : State :=
  set_heap (heap_set (initialValues eng) contents (heap s)) s.

(** The state once the call has settled, whatever its outcome. *)
Definition run_op (eng : Engine) (op : Op) (s : State) : State :=
  match op with
  | CallSetFieldValue name v => snd (setFieldValue name v s)
  | CallSetValues fields => snd (setValues fields s)
  | CallSetFieldError name err => snd (setFieldError name err s)
  | CallSetErrors fields => snd (setErrors fields s)
  | CallSetServerErrors serverErrors => snd (setServerErrors serverErrors s)
  | CallSetFieldTouched name t => snd (setFieldTouched name t s)
  | CallSetTouched fields => snd (setTouched fields s)
  | CallGetFieldError name => snd (getFieldError name s)
  | CallGetFieldMeta name => snd (getFieldMeta name s)
  | CallValidateField name rs => snd (validateField eng name rs s)
  | CallValidate => snd (validate eng s)
  | CallHandleSubmit onValid onInvalid e =>
      snd (handleSubmit eng (option_map script_callback onValid)
             (option_map (script_invalid eng) onInvalid) e s)
  | CallSubmitForm e => snd (submitForm eng e s)
  | CallHandleReset => snd (handleReset eng s)
  | CallResetForm state => snd (resetForm eng state s)
  | CallRegister name options use =>
      snd ((b <- register eng name options ;;
            match use with
            | UseNothing => ret tt
            | UseValue => binding_value b ;; ret tt
            | UseInput text => onInput b text
            | UseBlur => onBlur b
            end) s)
  | MutateInitialValues contents => write_initial eng contents s
  end.

Definition run_ops (eng : Engine) (ops : list Op) (s : State) : State :=
  fold_left (fun st op => run_op eng op st) ops s.

(** The contents of the caller's initial values when [useForm] is
    called. *)
Definition initial_object (h : Heap) (l : option loc) : ValuesObj :=
  match l with
  | Some l => heap_get l h
  | None => []
  end.

Definition writes_initial (op : Op) : bool :=
  match op with
  | MutateInitialValues _ => true
  | _ => false
  end.

(** The caller leaves the object it passed as [initialValues] alone. *)
Definition caller_silent (ops : list Op) : Prop :=
  forall op, In op ops -> writes_initial op = false.

(** ** Names that every object inherits

    The dictionaries of the engine are plain objects: when [name] is
    not an own property, [o[name]] finds the member of
    [Object.prototype] of that name, if there is one.  The operations
    above read a name as an own property, which is what the language
    does at every name that is not [inherited].  For [setFieldValue]
    this part follows the lookup of the language at every name, for a
    call made while [Object.prototype] is the prototype of the
    dictionaries and has only its standard members. *)

(** The functions that are members of [Object.prototype]. *)
Definition prototype_functions : list string :=
  ["constructor"; "hasOwnProperty"; "isPrototypeOf"; "propertyIsEnumerable";
   "toLocaleString"; "toString"; "valueOf"; "__defineGetter__";
   "__defineSetter__"; "__lookupGetter__"; "__lookupSetter__"].

(** [name] is a member of [Object.prototype]: one of its functions, or
    the accessor [__proto__]. *)
Definition inherited (name : string) : bool :=
  (name =? "__proto__") || existsb (String.eqb name) prototype_functions.

(** No key of [o] is a member of [Object.prototype]. *)
Definition ordinary_keys {A} (o : Obj A) : Prop :=
  forall k, In k (obj_keys o) -> inherited k = false.

(** What [o[name]] finds: an own property; else, for [__proto__], the
    prototype of [o]; else a function of [Object.prototype]; else
    nothing. *)
Inductive Found (A : Type) : Type :=
| OwnProperty (a : A)
| ThePrototype
| PrototypeFunction (name : string)
| NotFound.

Arguments OwnProperty {A} a.
Arguments ThePrototype {A}.
Arguments PrototypeFunction {A} name.
Arguments NotFound {A}.

Definition find_property {A} (name : string) (o : Obj A) : Found A :=
  match obj_get name o with
  | Some a => OwnProperty a
  | None =>
      if name =? "__proto__" then ThePrototype
      else if existsb (String.eqb name) prototype_functions
           then PrototypeFunction name
           else NotFound
  end.

(** The assignments of [setFieldValue] that do not land in a
    dictionary of the engine: the values object is given the
    prototype [v]; [dirty = true] is set on [Object.prototype]; it is
    set on the function that the lookup of [name] found. *)
Inductive Outside : Type :=
| ValuesPrototype (v : JsVal)
| PrototypeDirty
| FunctionDirty (name : string).

Module Inherit.

(** [values.value[name] = v]: an own property is written or created,
    except through the setter of [__proto__], which stores nothing and
    makes [v] the prototype of the values object when [v] is an object
    or [null] ([ValuesPrototype]). *)
Definition assign_value (name : string) (v : JsVal) (s : State)
  : State * list Outside :=
  match find_property name (values_obj s) with
  | ThePrototype =>
      (s, match v with
          | VNull | VArr _ | VObj => [ValuesPrototype v]
          | _ => []
          end)
  | _ => (write_value name v s, [])
  end.

(** [if (!fieldsMeta.value[name]) fieldsMeta.value[name] = { ... }]:
    the members of [Object.prototype] are truthy. *)
Definition ensure_meta (name : string) (s : State) : State :=
  match find_property name (fieldsMeta s) with
  | NotFound => set_fieldsMeta (obj_set name (new_meta false) (fieldsMeta s)) s
  | _ => s
  end.

(** [fieldsMeta.value[name].dirty = true]: on the FieldMeta of the
    field, or on what the lookup found instead. *)
Definition mark_dirty (name : string) (s : State)
  : Res unit * State * list Outside :=
  match find_property name (fieldsMeta s) with
  | OwnProperty m =>
      (Ok tt, set_fieldsMeta (obj_set name (with_dirty true m) (fieldsMeta s)) s, [])
  | ThePrototype => (Ok tt, s, [PrototypeDirty])
  | PrototypeFunction f => (Ok tt, s, [FunctionDirty f])
  | NotFound => (Throw (TypeError "Cannot set properties of undefined"), s, [])
  end.

Definition setFieldValue (name : string) (v : JsVal) (s : State)
  : Res unit * State * list Outside :=
  let (s1, w1) := assign_value name v s in
  let '(r, s2, w2) := mark_dirty name (ensure_meta name s1) in
  (r, s2, w1 ++ w2).

End Inherit.

(** ** States a reference can be followed in *)

Definition allocated (s : State) : Prop := values s < List.length (heap s).

(** The engine's own values object is not the caller's, and the
    caller's still holds [iv]. *)
Definition inv (eng : Engine) (iv : ValuesObj) (s : State) : Prop :=
  initialValues eng < List.length (heap s)
  /\ values s < List.length (heap s)
  /\ values s <> initialValues eng
  /\ heap_get (initialValues eng) (heap s) = iv.

Definition preserves {A} (P : State -> Prop) (m : M A) : Prop :=
  forall s, P s -> P (snd (m s)).

(** The state in which [handleSubmit] calls [validate]. *)
Definition submitting (e : option Event) (s : State) : State :=
  let s1 :=
    match e with
    | Some _ => emit StopPropagation (emit PreventDefault s)
    | None => s
    end in
  set_submitCount (submitCount s1 + 1)%Z (set_isSubmitting true s1).

(** The callback a valid submission invokes. *)
Definition chosen_callback (eng : Engine) (onValid : option SubmitCallback)
  : option SubmitCallback :=
  match onValid with
  | Some cb => Some cb
  | None => onSubmit eng
  end.

(** Whether [validateField] reaches a [return] that follows a
    validation: the object schema, the chain schema when [validateAt]
    resolves, or a rule list in use. *)
Definition decided (eng : Engine) (name : string)
    (rs : option (list ValidationRule)) (s : State) : Prop :=
  isZodSchema eng = true
  \/ (exists y, activeSchema eng = Some (SYup y)
                /\ validateAt y name (values_obj s) = Ok tt)
  \/ rs <> None
  \/ obj_get name (fieldRules s) <> None.

(** The verdict of the rules part of [validateField] on one entry. *)
Definition rules_verdict (v : JsVal) (rs : list ValidationRule) : option string :=
  match validateValue v rs with
  | Ok (Some msg) => if msg =? "" then None else Some msg
  | _ => None
  end.

(** [s'] differs from [s] at most in the ErrorBag and [isValidating]. *)
Definition validation_frame (s s' : State) : Prop :=
  heap s' = heap s /\ values s' = values s /\ fieldsMeta s' = fieldsMeta s
  /\ isSubmitting s' = isSubmitting s /\ submitCount s' = submitCount s
  /\ fieldRules s' = fieldRules s /\ trace s' = trace s.

(** What a verdict makes of the result and of the ErrorBag entry of
    the field. *)
Definition verdict_result (verdict : option string) : FieldResult :=
  match verdict with
  | Some msg => mkFieldResult false [msg]
  | None => field_ok
  end.

Definition verdict_bag (name : string) (verdict : option string)
    (bag : Obj (list string)) : Obj (list string) :=
  match verdict with
  | Some msg => obj_set name [msg] bag
  | None => obj_delete name bag
  end.

(** The ErrorBag after the loop of [validate] over [entries]. *)
Definition bag_after (vals : ValuesObj) (entries : Obj (list ValidationRule))
    (bag : Obj (list string)) : Obj (list string) :=
  fold_left
    (fun acc entry =>
       verdict_bag (fst entry)
         (rules_verdict (js_get (fst entry) vals) (snd entry)) acc)
    entries bag.

(** Whether [validateField(fieldName, rules)], called in [s] on one
    entry of the rules mapping, answers valid. *)
Definition entry_valid (eng : Engine) (s : State)
    (entry : string * list ValidationRule) : bool :=
  match fst (validateField eng (fst entry) (Some (snd entry)) s) with
  | Ok res => field_valid res
  | Throw _ => false
  end.

(** No rule of the mapping raises on the value of its field. *)
Definition rules_return (s : State) : Prop :=
  forall f rs e, In (f, rs) (fieldRules s) ->
                 validateValue (js_get f (values_obj s)) rs <> Throw e.

(** ** Sample forms *)

Definition required_rule (msg : string) : ValidationRule :=
  mkRule required RvUndefined msg.

Definition minLength_rule (n : Z) (msg : string) : ValidationRule :=
  mkRule minLength (RvNum n) msg.

(** [{ name: '' }] at location 0. *)
Definition sample_heap : Heap := [[("name", VStr "")]].

(** [useForm({ initialValues, schema: { name: [required] } })] *)
Definition sample_options : Options.t :=
  Options.make (Some 0) None None None
    (Some (SRules [("name", [required_rule "Name is required"])]))
    None None.

Definition sample_engine : Engine := fst (useForm sample_heap sample_options).
Definition sample_state : State := snd (useForm sample_heap sample_options).



(** [useForm({ initialValues: { age: 0, agree: false } })] *)
Definition age_heap : Heap := [[("age", VNum 0); ("agree", VBool false)]].

Definition age_options : Options.t :=
  Options.make (Some 0) None None None None None None.

Definition age_engine : Engine := fst (useForm age_heap age_options).
Definition age_state : State := snd (useForm age_heap age_options).

(** A chain schema whose [validateAt] rejects with a value that has no
    [message], on a form whose [email] field carries an error set by
    [setFieldError]. *)
Definition silent_yup : AnyObjectSchema :=
  mkYup (fun _ _ => Throw (ThrownObj (mkErr None None None None)))
        (fun _ => Ok tt).

Definition silent_options : Options.t :=
  Options.make (Some 0) None None (Some (SYup silent_yup)) None None None.

Definition silent_heap : Heap := [[("email", VStr "a@b.c")]].

Definition silent_engine : Engine := fst (useForm silent_heap silent_options).

Definition silent_state : State :=
  snd (setFieldError "email" "Already taken"
         (snd (useForm silent_heap silent_options))).

(** A form without schema and without rules whose [name] field carries
    an error set by [setFieldError]. *)
Definition bare_options : Options.t :=
  Options.make (Some 0) None None None None None None.

Definition bare_engine : Engine := fst (useForm sample_heap bare_options).

Definition bare_state : State :=
  snd (setFieldError "name" "Server error"
         (snd (useForm sample_heap bare_options))).

(** A custom rule written for strings, [v => v.trim().length > 0],
    on a form whose [age] field holds the number 5. *)
Definition trims_to_nonempty (v : JsVal) : FnResult :=
  match v with
  | VStr s => Returns (negb (s =? ""))
  | _ => Raises (TypeError "v.trim is not a function")
  end.

Definition trim_heap : Heap := [[("age", VNum 5)]].

Definition trim_options : Options.t :=
  Options.make (Some 0) None None
    (Some (SRules [("age", [mkRule custom (RvFn trims_to_nonempty) "Age is required"])]))
    None None None.

Definition trim_engine : Engine := fst (useForm trim_heap trim_options).
Definition trim_state : State := snd (useForm trim_heap trim_options).

(** The same rule on [age], followed by a [required] rule on a [name]
    field that is empty. *)
Definition raising_heap : Heap := [[("age", VNum 5); ("name", VStr "")]].

Definition raising_options : Options.t :=
  Options.make (Some 0) None None
    (Some (SRules
       [("age", [mkRule custom (RvFn trims_to_nonempty) "Age is required"]);
        ("name", [required_rule "Name is required"])]))
    None None None.

Definition raising_engine : Engine := fst (useForm raising_heap raising_options).
Definition raising_state : State := snd (useForm raising_heap raising_options).

(** [useForm({ initialValues: { name: 'John' }, onSubmit })] with an
    [onSubmit] that rejects. *)
Definition john_heap : Heap := [[("name", VStr "John")]].

Definition rejecting : SubmitCallback :=
  fun _ _ => throw (Error "Submission error").

Definition rejecting_options : Options.t :=
  Options.make (Some 0) None None None None None (Some rejecting).

Definition rejecting_engine : Engine := fst (useForm john_heap rejecting_options).
Definition rejecting_state : State := snd (useForm john_heap rejecting_options).

(** Two fields with rules, both failing: [name] is empty and
    [email] is malformed. *)
Definition two_heap : Heap := [[("name", VStr ""); ("email", VStr "invalid-email")]].

Definition two_options : Options.t :=
  Options.make (Some 0) None None
    (Some (SRules
       [("name", [required_rule "Name is required"]);
        ("email", [required_rule "Email is required";
                   mkRule email RvUndefined "Invalid email"])]))
    None None None.

Definition two_engine : Engine := fst (useForm two_heap two_options).
Definition two_state : State := snd (useForm two_heap two_options).

(** ** Derived views

    The computed [meta] of [useForm] and the [simpleErrors] that the
    Form component ([Form.vue]) hands to its slot. *)

Module FormMeta.
Record t : Type := make {
  touched : bool;
  dirty : bool;
  valid : bool;
  pending : bool;
  isSubmitting : bool;
  isValidating : bool;
  submitCount : Z;
  initialValues : loc
}.
End FormMeta.

(** [Object.values(fieldsMeta.value).some(p)] *)
Definition some_field (p : FieldMeta -> bool) (s : State) : bool :=
  existsb (fun kv => p (snd kv)) (fieldsMeta s).

Definition meta (eng : Engine) (s : State) : FormMeta.t :=
  FormMeta.make
    (some_field touched s)
    (some_field dirty s)
    (List.length (obj_keys (errors s)) =? 0)%nat
    (some_field pending s)
    (isSubmitting s) (isValidating s) (submitCount s)
    (initialValues eng).


(** ** Grouping of reported issues *)

(** The (key, message) pairs of the issues of an object schema and of
    the inner errors of a chain schema, as [validate] files them. *)
Definition issue_entries (l : list Issue) : list (string * string) :=
  map (fun e => (as_key (hd_error (issue_path e)), issue_message e)) l.

Definition inner_entries (l : list InnerError) : list (string * string) :=
  map (fun e => (as_key (inner_path e), inner_message e)) l.


(** The ErrorBag once every pair has been pushed. *)
Definition pushed (entries : list (string * string))
    (bag : Obj (list string)) : Obj (list string) :=
  fold_left
    (fun acc kv =>
       match obj_get (fst kv) acc with
       | Some msgs => obj_set (fst kv) (msgs ++ [snd kv]) acc
       | None => obj_set (fst kv) [snd kv] acc
       end)
    entries bag.

(** A mapping read as an object: the value under the first key that
    matches; with distinct keys, the value of the key. *)
Definition distinct_keys {A} (o : Obj A) : Prop := NoDup (obj_keys o).

(** The FieldMeta of a field: what is stored, or the one created on
    first use. *)
Definition meta_or_new (name : string) (s : State) : FieldMeta :=
  match obj_get name (fieldsMeta s) with
  | Some m => m
  | None => new_meta false
  end.

(** Two facts about a state that validation is shown to keep. *)
Definition validating_is (b : bool) (s : State) : Prop := isValidating s = b.

Definition entry_is (k : string) (x : option (list string)) (s : State) : Prop :=
  obj_get k (errors s) = x.

(** [err.issues || err.errors] of a thrown object. *)
Definition reported_issues (e : ErrObj) : option (list Issue) :=
  match err_issues e with
  | Some l => Some l
  | None => err_errors e
  end.

(** The FieldMeta map after the loop of [setTouched]. *)
Definition touched_all (fields : Obj bool) (fm : Obj FieldMeta) : Obj FieldMeta :=
  fold_left
    (fun acc kv =>
       obj_set (fst kv)
         (with_touched (snd kv)
            match obj_get (fst kv) acc with
            | Some m => m
            | None => new_meta false
            end) acc)
    fields fm.

(** Strings over [[^\s@]]. *)
Fixpoint all_plain (s : string) : bool :=
  match s with
  | EmptyString => true
  | String c rest => is_plain c && all_plain rest
  end.

Definition is_required (r : ValidationRule) : bool :=
  match type r with
  | required => true
  | _ => false
  end.

(** No FieldMeta of the form is pending. *)
Definition never_pending (s : State) : Prop :=
  Forall (fun kv => pending (snd kv) = false) (fieldsMeta s).

(** ** More sample data *)

Definition sample_errors : Obj string :=
  [("name", "Name is required"); ("email", "Email is invalid")].

(** [{ name: ['Name is required'], email: [] }] *)
Definition sample_server_errors : Obj (list string) :=
  [("name", ["Name is required"]); ("email", [])].

Definition sample_fields : Obj JsVal :=
  [("name", VStr "Jane"); ("age", VNum 30)].












(** An object schema that fails with an error that carries no issues. *)
Definition plain_error : ErrObj := mkErr None None (Some "Network error") None.

Definition broken_zod : ZodSchema := mkZod (fun _ => Throw (ThrownObj plain_error)).

Definition broken_zod_options : Options.t :=
  Options.make (Some 0) None None (Some (SZod broken_zod)) None None None.

Definition broken_zod_engine : Engine := fst (useForm two_heap broken_zod_options).
Definition broken_zod_state : State := snd (useForm two_heap broken_zod_options).



(** * Properties *)

(** ** Objects and the store *)

Lemma obj_get_set_same {A} (k : string) (v : A) (o : Obj A) :
  obj_get k (obj_set k v o) = Some v.
Proof.
  induction o as [|[k' v'] rest IH]; simpl.
  - now rewrite String.eqb_refl.
  - destruct (k' =? k) eqn:E; simpl; rewrite E; auto.
Qed.

Lemma obj_get_set_other {A} (k k' : string) (v : A) (o : Obj A) :
  k <> k' -> obj_get k' (obj_set k v o) = obj_get k' o.
Proof.
  intros Hne. induction o as [|[k0 v0] rest IH]; simpl.
  - destruct (k =? k') eqn:E; auto.
    apply String.eqb_eq in E. contradiction.
  - destruct (k0 =? k) eqn:E; simpl.
    + apply String.eqb_eq in E. subst k0.
      destruct (k =? k') eqn:E'; auto.
      apply String.eqb_eq in E'. contradiction.
    + now rewrite IH.
Qed.

Lemma obj_get_delete_same {A} (k : string) (o : Obj A) :
  obj_get k (obj_delete k o) = None.
Proof.
  induction o as [|[k' v'] rest IH]; simpl; auto.
  destruct (k' =? k) eqn:E; simpl; auto.
  now rewrite E.
Qed.

Lemma obj_get_delete_other {A} (k k' : string) (o : Obj A) :
  k <> k' -> obj_get k' (obj_delete k o) = obj_get k' o.
Proof.
  intros Hne. induction o as [|[k0 v0] rest IH]; simpl; auto.
  destruct (k0 =? k) eqn:E; simpl.
  - apply String.eqb_eq in E. subst k0.
    destruct (k =? k') eqn:E'; auto.
    apply String.eqb_eq in E'. contradiction.
  - now rewrite IH.
Qed.

Lemma heap_set_length (l : loc) (o : ValuesObj) (h : Heap) :
  List.length (heap_set l o h) = List.length h.
Proof.
  revert l. induction h as [|x rest IH]; intros [|l]; simpl; auto.
Qed.

Lemma heap_get_set_same (l : loc) (o : ValuesObj) (h : Heap) :
  l < List.length h -> heap_get l (heap_set l o h) = o.
Proof.
  unfold heap_get. revert l.
  induction h as [|x rest IH]; intros [|l] Hl; simpl in *; try lia; auto.
  apply IH. lia.
Qed.

Lemma heap_get_set_other (l l' : loc) (o : ValuesObj) (h : Heap) :
  l <> l' -> heap_get l' (heap_set l o h) = heap_get l' h.
Proof.
  unfold heap_get. revert l l'.
  induction h as [|x rest IH]; intros [|l] [|l'] Hne; simpl; auto;
    try contradiction.
Qed.

Lemma heap_get_alloc_old (l : loc) (o : ValuesObj) (h : Heap) :
  l < List.length h -> heap_get l (snd (heap_alloc o h)) = heap_get l h.
Proof.
  intros Hl. unfold heap_get, heap_alloc. simpl. now rewrite app_nth1.
Qed.

Lemma heap_get_alloc_new (o : ValuesObj) (h : Heap) :
  heap_get (fst (heap_alloc o h)) (snd (heap_alloc o h)) = o.
Proof.
  unfold heap_get, heap_alloc. simpl.
  rewrite app_nth2 by lia. now rewrite Nat.sub_diag.
Qed.

(** ** Rule evaluation *)

Lemma validateValue_skips (v : JsVal) (passing rest : list ValidationRule) :
  Forall (fun r => rule_fails v r = Ok false) passing ->
  validateValue v (passing ++ rest) = validateValue v rest.
Proof.
  induction 1 as [|r passing Hr _ IH]; simpl; auto.
  now rewrite Hr.
Qed.

(** C5: [validateValue] walks the rule list in order and returns at
    the first rule that fails, with that rule's message, whatever
    follows it in the list (the rules after it are not evaluated, even
    ones whose evaluation would raise); when no rule fails it returns
    no error; on [[required, minLength(3)]] and the empty string it
    returns the message of [required]. *)
Theorem validateValue_first_failure_wins :
  (forall v passing r later,
      Forall (fun p => rule_fails v p = Ok false) passing ->
      rule_fails v r = Ok true ->
      validateValue v (passing ++ r :: later) = Ok (Some (message r)))
  /\ (forall v rs,
         Forall (fun p => rule_fails v p = Ok false) rs ->
         validateValue v rs = Ok None)
  /\ (forall m1 m2,
         validateValue (VStr "") [required_rule m1; minLength_rule 3 m2]
         = Ok (Some m1)).
Proof.
  split; [|split].
  - intros v passing r later Hpass Hfail.
    rewrite validateValue_skips by assumption.
    simpl. now rewrite Hfail.
  - intros v rs Hpass.
    rewrite <- (app_nil_r rs).
    now rewrite validateValue_skips.
  - reflexivity.
Qed.

(** A passing [required] rule, a failing [minLength], then a predicate
    that raises when called: the second message is returned and the
    third rule is never run. *)
Lemma validateValue_first_failure_wins_witness :
  validateValue (VStr "ab")
    ([required_rule "r"]
       ++ minLength_rule 3 "too short"
       :: [mkRule custom (RvFn (fun _ => Raises (Error "boom"))) "c"])
  = Ok (Some "too short").
Proof.
  apply (proj1 validateValue_first_failure_wins (VStr "ab")
           [required_rule "r"] (minLength_rule 3 "too short")).
  - repeat constructor.
  - reflexivity.
Defined.

(** ** Field mutation *)

Lemma write_value_reads_back (name : string) (v : JsVal) (s : State) :
  allocated s ->
  obj_get name (values_obj (write_value name v s)) = Some v.
Proof.
  intros Hs. unfold values_obj, write_value. simpl.
  rewrite heap_get_set_same by exact Hs.
  apply obj_get_set_same.
Qed.

(** At a name that is not inherited, the lookup of the language finds
    what the own properties hold. *)
Lemma find_property_ordinary {A} (name : string) (o : Obj A) :
  inherited name = false ->
  find_property name o
  = match obj_get name o with
    | Some a => OwnProperty a
    | None => NotFound
    end.
Proof.
  unfold inherited, find_property. intros H.
  apply orb_false_iff in H. destruct H as [Hp Hf].
  rewrite Hp, Hf. reflexivity.
Qed.

(** At such a name [Inherit.setFieldValue] is [setFieldValue], and
    every assignment lands in a dictionary of the engine. *)
Lemma setFieldValue_ordinary (name : string) (v : JsVal) (s : State) :
  inherited name = false ->
  Inherit.setFieldValue name v s = (setFieldValue name v s, []).
Proof.
  intros H.
  unfold Inherit.setFieldValue, Inherit.assign_value, Inherit.ensure_meta,
    Inherit.mark_dirty.
  rewrite (find_property_ordinary name (values_obj s) H).
  assert (Hw : (match match obj_get name (values_obj s) with
                      | Some a => OwnProperty a
                      | None => NotFound
                      end with
                | ThePrototype =>
                    (s, match v with
                        | VNull | VArr _ | VObj => [ValuesPrototype v]
                        | _ => []
                        end)
                | _ => (write_value name v s, [])
                end) = (write_value name v s, [])).
  { destruct (obj_get name (values_obj s)); reflexivity. }
  rewrite Hw. clear Hw.
  rewrite (find_property_ordinary name (fieldsMeta (write_value name v s)) H).
  unfold setFieldValue, ensure_meta, update_meta, bind, modify, gets, ret.
  simpl.
  destruct (obj_get name (fieldsMeta s)) as [m|] eqn:Hm; simpl.
  - rewrite find_property_ordinary by exact H. simpl. now rewrite Hm.
  - rewrite find_property_ordinary by exact H. simpl.
    now rewrite obj_get_set_same.
Qed.

(** C9 (amended): for a field name [n] that is not a member of
    [Object.prototype], [setFieldValue(n, v)] returns and writes
    nothing outside the dictionaries of the engine; afterwards the
    values object has [v] as its own property [n], the field has a
    FieldMeta of its own whose [dirty] is true, and the ErrorBag is
    the one from before the call; no validation has run: the
    validating flag, the registered rules, the submission state and
    the log are as they were. *)
Theorem setFieldValue_writes_and_marks_dirty (n : string) (v : JsVal) (s : State) :
  inherited n = false ->
  allocated s ->
  exists s',
    Inherit.setFieldValue n v s = (Ok tt, s', [])
    /\ setFieldValue n v s = (Ok tt, s')
    /\ find_property n (values_obj s') = OwnProperty v
    /\ (exists m, find_property n (fieldsMeta s') = OwnProperty m /\ dirty m = true)
    /\ errors s' = errors s
    /\ isValidating s' = isValidating s
    /\ isSubmitting s' = isSubmitting s
    /\ submitCount s' = submitCount s
    /\ fieldRules s' = fieldRules s
    /\ trace s' = trace s.
Proof.
  intros Hn Hs.
  pose proof (write_value_reads_back n v s Hs) as Hv.
  rewrite (setFieldValue_ordinary n v s Hn).
  unfold setFieldValue, ensure_meta, update_meta, bind, modify, gets, ret.
  simpl.
  destruct (obj_get n (fieldsMeta s)) as [m|] eqn:Hm; simpl.
  - rewrite Hm. simpl. eexists. split; [reflexivity|]. split; [reflexivity|].
    rewrite !find_property_ordinary by exact Hn.
    change (values_obj (set_fieldsMeta _ _)) with (values_obj (write_value n v s)).
    rewrite Hv. simpl. rewrite obj_get_set_same. repeat split; eauto.
  - rewrite obj_get_set_same. simpl.
    eexists. split; [reflexivity|]. split; [reflexivity|].
    rewrite !find_property_ordinary by exact Hn.
    change (values_obj (set_fieldsMeta _ _)) with (values_obj (write_value n v s)).
    rewrite Hv. simpl. rewrite obj_get_set_same. repeat split; eauto.
Qed.

Lemma setFieldValue_writes_and_marks_dirty_witness :
  exists s',
    Inherit.setFieldValue "name" (VStr "John") sample_state = (Ok tt, s', [])
    /\ find_property "name" (values_obj s') = OwnProperty (VStr "John").
Proof.
  destruct (setFieldValue_writes_and_marks_dirty "name" (VStr "John") sample_state)
    as (s' & Hrun & _ & Hv & _).
  - reflexivity.
  - unfold allocated. simpl. lia.
  - exists s'. split; assumption.
Defined.

(** C9, the claim as stated fails at the name [__proto__]: the call
    returns, the state of the engine is the one from before, so the
    values object has no property [__proto__] of its own and reading
    it gives the prototype, not ['John']; the field has no FieldMeta;
    and [dirty] has been set on [Object.prototype].  At the name
    [constructor] the value is stored, but the field gets no
    FieldMeta: [dirty] is set on the function that every object
    inherits under that name. *)
Lemma setFieldValue_stores_nothing_at_proto :
  (Inherit.setFieldValue "__proto__" (VStr "John") sample_state
   = (Ok tt, sample_state, [PrototypeDirty])
   /\ find_property "__proto__" (values_obj sample_state) = ThePrototype
   /\ find_property "__proto__" (values_obj sample_state) <> OwnProperty (VStr "John")
   /\ obj_get "__proto__" (fieldsMeta sample_state) = None)
  /\ (Inherit.setFieldValue "constructor" (VStr "John") sample_state
      = (Ok tt, write_value "constructor" (VStr "John") sample_state,
         [FunctionDirty "constructor"])
      /\ obj_get "constructor"
           (fieldsMeta (write_value "constructor" (VStr "John") sample_state))
         = None).
Proof. repeat split. discriminate. Qed.

(** ** Construction *)




(** ** Registration *)

(** What [register] leaves under [name]: the value from before when it
    is truthy, the empty string otherwise. *)
Lemma register_value (eng : Engine) (name : string)
    (options : option RegisterOptions) (s : State) :
  allocated s ->
  js_get name (values_obj (snd (register eng name options s)))
  = if truthy (js_get name (values_obj s))
    then js_get name (values_obj s)
    else VStr "".
Proof.
  intros Hs. unfold register, bind, modify, gets, ret.
  destruct options as [[[rs|] vo]|]; cbn [rules];
    change (values_obj (set_fieldRules _ s)) with (values_obj s);
    destruct (truthy (js_get name (values_obj s))) eqn:Ht; cbn [negb snd fst];
    try reflexivity.
  all: unfold js_get at 1.
  all: try (change (values_obj (write_value name (VStr "") (set_fieldRules ?x s)))
              with (values_obj (write_value name (VStr "") s))).
  all: rewrite (write_value_reads_back name (VStr "") s) by exact Hs; reflexivity.
Qed.

(** C2, at the failing input: the form starts with [age = 0] and
    [agree = false]; registering either field replaces the stored
    value by the empty string. *)
Theorem register_overwrites_zero_and_false :
  js_get "age" (values_obj age_state) = VNum 0
  /\ js_get "age" (values_obj (snd (register age_engine "age" None age_state)))
     = VStr ""
  /\ js_get "agree" (values_obj age_state) = VBool false
  /\ js_get "agree" (values_obj (snd (register age_engine "agree" None age_state)))
     = VStr "".
Proof. repeat split. Qed.

(** ** Single-field validation *)

Lemma validateField_rules_valid (name : string) (rs : list ValidationRule)
    (v : JsVal) (s s' : State) (res : FieldResult) :
  validateField_rules name (Some rs) v s = (Ok res, s') ->
  field_valid res = true ->
  s' = set_errors (obj_delete name (errors s)) s.
Proof.
  unfold validateField_rules, bind, await, modify, delete_error, ret.
  destruct (validateValue v rs) as [[msg|]|e]; simpl.
  - destruct (msg =? ""); simpl; intros H Hv; inversion H; subst; auto.
    discriminate.
  - intros H _. now inversion H.
  - discriminate.
Qed.

(** Without an external schema [validateField] is its rules part. *)
Lemma validateField_no_schema (eng : Engine) (name : string)
    (rs : option (list ValidationRule)) (s : State) :
  isZodSchema eng = false -> isYupSchema eng = false ->
  validateField eng name rs s
  = validateField_rules name
      (match rs with Some r => Some r | None => obj_get name (fieldRules s) end)
      (js_get name (values_obj s)) s.
Proof.
  unfold isZodSchema, isYupSchema, validateField, bind, gets.
  destruct (activeSchema eng) as [[z|y|r]|]; simpl; try discriminate; auto.
Qed.

(** Object schema, failure without [issues] and without [errors]: the
    field is reported valid and its entry is deleted. *)
Lemma validateField_zod_unrecognized (eng : Engine) (z : ZodSchema)
    (name : string) (rs : option (list ValidationRule)) (s : State) (e : ErrObj) :
  activeSchema eng = Some (SZod z) ->
  parseAsync z (values_obj s) = Throw (ThrownObj e) ->
  err_issues e = None -> err_errors e = None ->
  validateField eng name rs s
  = (Ok field_ok, set_errors (obj_delete name (errors s)) s).
Proof.
  intros Hsch Hparse Hi He.
  unfold validateField, bind, gets. rewrite Hsch. simpl.
  unfold try_catch, bind, await. rewrite Hparse. simpl.
  rewrite Hi, He. reflexivity.
Qed.

(** C3, at the failing input: the chain schema rejects [validateAt]
    with a value that has no [message].  The call then runs the rules
    part: without rules it answers valid and leaves the entry of the
    field in the ErrorBag; with a rule list it can answer invalid. *)
Theorem validateField_yup_without_message_keeps_error :
  validateAt silent_yup "email" (values_obj silent_state)
  = Throw (ThrownObj (mkErr None None None None))
  /\ first_error "email" (errors silent_state) = Some "Already taken"
  /\ fst (validateField silent_engine "email" None silent_state) = Ok field_ok
  /\ first_error "email"
       (errors (snd (validateField silent_engine "email" None silent_state)))
     = Some "Already taken"
  /\ fst (validateField silent_engine "email"
            (Some [minLength_rule 10 "Too short"]) silent_state)
     = Ok (mkFieldResult false ["Too short"]).
Proof. repeat split. Qed.

(** When neither branch of the chain-schema dispatch returns, a rule
    list is in use. *)
Ltac rules_in_use Hdec Hsch :=
  match goal with
  | |- ?x <> None =>
      destruct Hdec as [Hz|[(y' & Hy & Hok)|[Hrs|Hreg]]];
      [ unfold isZodSchema in Hz; rewrite Hsch in Hz; discriminate
      | rewrite Hsch in Hy; first [discriminate | inversion Hy; subst y'; congruence]
      | match goal with rs : option _ |- _ => destruct rs; congruence end
      | match goal with rs : option _ |- _ => destruct rs; congruence end ]
  end.

(** C4 (amended): for a field name that is not a member of
    [Object.prototype]: when [validateField(name)] completes with
    [valid = true] after a validation that decided it (the object
    schema, the chain schema whose [validateAt] resolved, or a rule
    list passed or registered), the entry of the field is removed and
    [getFieldError(name)] returns none; when no schema is active and
    the field has no rule list, the call answers valid and leaves the
    state, ErrorBag included, as it was. *)
Theorem validateField_valid_clears_error :
  (forall eng n rs s res s',
      inherited n = false ->
      validateField eng n rs s = (Ok res, s') ->
      field_valid res = true ->
      decided eng n rs s ->
      obj_get n (errors s') = None
      /\ getFieldError n s' = (Ok None, s'))
  /\ (forall eng n s,
         inherited n = false ->
         isZodSchema eng = false -> isYupSchema eng = false ->
         obj_get n (fieldRules s) = None ->
         validateField eng n None s = (Ok field_ok, s)).
Proof.
  split.
  - intros eng n rs s res s' _ Hrun Hvalid Hdec.
    assert (Hs' : s' = set_errors (obj_delete n (errors s)) s).
    { revert Hrun. unfold validateField, bind, gets.
      destruct (activeSchema eng) as [[z|y|r]|] eqn:Hsch; simpl.
      - unfold try_catch, bind, await, delete_error, modify, ret.
        destruct (parseAsync z (values_obj s)) as [[]|err]; simpl.
        + intros H. now inversion H.
        + destruct err as [|e]; simpl; [discriminate|].
          destruct (match err_issues e with Some l => Some l | None => err_errors e end)
            as [l|]; simpl.
          * destruct (find (path_is n) l); simpl; intros H; inversion H; subst;
              auto; discriminate.
          * intros H. now inversion H.
      - unfold try_catch, bind, await, delete_error, modify, ret.
        destruct (validateAt y n (values_obj s)) as [[]|err] eqn:Hat; simpl.
        + intros H. now inversion H.
        + assert (Hto : match rs with Some r => Some r | None => obj_get n (fieldRules s) end <> None)
            by rules_in_use Hdec Hsch.
          destruct (match rs with Some r => Some r | None => obj_get n (fieldRules s) end)
            as [rl|]; [|congruence].
          destruct err as [|e]; simpl; [discriminate|].
          destruct (err_message e) as [m|]; simpl.
          * destruct (m =? ""); simpl.
            -- intros H. eapply validateField_rules_valid; eauto.
            -- intros H; inversion H; subst. discriminate.
          * intros H. eapply validateField_rules_valid; eauto.
      - assert (Hto : match rs with Some r => Some r | None => obj_get n (fieldRules s) end <> None)
          by rules_in_use Hdec Hsch.
        destruct (match rs with Some r => Some r | None => obj_get n (fieldRules s) end)
          as [rl|]; [|congruence].
        intros H. eapply validateField_rules_valid; eauto.
      - assert (Hto : match rs with Some r => Some r | None => obj_get n (fieldRules s) end <> None)
          by rules_in_use Hdec Hsch.
        destruct (match rs with Some r => Some r | None => obj_get n (fieldRules s) end)
          as [rl|]; [|congruence].
        intros H. eapply validateField_rules_valid; eauto. }
    subst s'. unfold getFieldError, gets, first_error. simpl.
    rewrite obj_get_delete_same. auto.
  - intros eng n s _ Hz Hy Hreg.
    rewrite validateField_no_schema by assumption.
    rewrite Hreg. reflexivity.
Qed.

(** The scenario of the specification: the required field is filled
    in, validated again, and its error is gone. *)
Lemma validateField_valid_clears_error_witness :
  let s1 := snd (validateField sample_engine "name" None sample_state) in
  let s2 := snd (setFieldValue "name" (VStr "John") s1) in
  first_error "name" (errors s1) = Some "Name is required"
  /\ obj_get "name" (errors (snd (validateField sample_engine "name" None s2))) = None.
Proof.
  intros s1 s2. split; [reflexivity|].
  apply (proj1 validateField_valid_clears_error sample_engine "name" None s2
           field_ok (snd (validateField sample_engine "name" None s2))).
  - reflexivity.
  - reflexivity.
  - reflexivity.
  - right. right. right. simpl. discriminate.
Defined.

(** C4, the claim as stated fails: without schema and without rules
    [validateField] answers valid, and the error set earlier is still
    what [getFieldError] returns. *)
Lemma validateField_without_rules_keeps_error :
  fst (validateField bare_engine "name" None bare_state) = Ok field_ok
  /\ fst (getFieldError "name"
            (snd (validateField bare_engine "name" None bare_state)))
     = Ok (Some "Server error").
Proof. split; reflexivity. Qed.

(** ** What operations leave alone *)

Section Preservation.
Variable P : State -> Prop.

Lemma preserves_ret {A} (a : A) : preserves P (ret a).
Proof. intros s H. exact H. Qed.

Lemma preserves_throw {A} (e : Thrown) : preserves P (@throw A e).
Proof. intros s H. exact H. Qed.

Lemma preserves_gets {A} (f : State -> A) : preserves P (gets f).
Proof. intros s H. exact H. Qed.

Lemma preserves_await {A} (r : Res A) : preserves P (await r).
Proof. intros s H. exact H. Qed.

Lemma preserves_modify (f : State -> State) :
  (forall s, P s -> P (f s)) -> preserves P (modify f).
Proof. intros Hf s H. now apply Hf. Qed.

Lemma preserves_bind {A B} (m : M A) (k : A -> M B) :
  preserves P m -> (forall a, preserves P (k a)) -> preserves P (bind m k).
Proof.
  intros Hm Hk s H. unfold bind.
  specialize (Hm s H). destruct (m s) as [[a|e] s1]; simpl in *.
  - now apply Hk.
  - exact Hm.
Qed.

Lemma preserves_try_catch {A} (m : M A) (handler : Thrown -> M A) :
  preserves P m -> (forall e, preserves P (handler e)) ->
  preserves P (try_catch m handler).
Proof.
  intros Hm Hh s H. unfold try_catch.
  specialize (Hm s H). destruct (m s) as [[a|e] s1]; simpl in *.
  - exact Hm.
  - now apply Hh.
Qed.

Lemma preserves_detached {A} (m : M A) :
  preserves P m -> preserves P (detached m).
Proof. intros Hm s H. now apply Hm. Qed.

Lemma preserves_forEach {A} (f : string -> A -> M unit) (o : Obj A) :
  (forall k v, preserves P (f k v)) -> preserves P (forEach f o).
Proof.
  intros Hf. induction o as [|[k v] rest IH]; simpl.
  - apply preserves_ret.
  - apply preserves_bind; auto.
Qed.

Lemma preserves_fold_right {A} (f : A -> M unit) (l : list A) :
  (forall a, preserves P (f a)) ->
  preserves P (fold_right (fun a k => f a ;; k) (ret tt) l).
Proof.
  intros Hf. induction l as [|a rest IH]; simpl.
  - apply preserves_ret.
  - apply preserves_bind; auto.
Qed.
End Preservation.

Ltac preserve_step tac :=
  lazymatch goal with
  | |- preserves _ (ret _) => apply preserves_ret
  | |- preserves _ (throw _) => apply preserves_throw
  | |- preserves _ (gets _) => apply preserves_gets
  | |- preserves _ (await _) => apply preserves_await
  | |- preserves _ (bind _ _) => apply preserves_bind; [|intros ?]
  | |- preserves _ (try_catch _ _) => apply preserves_try_catch; [|intros ?]
  | |- preserves _ (detached _) => apply preserves_detached
  | |- preserves _ (forEach _ _) => apply preserves_forEach; intros ? ?
  | |- preserves _ (fold_right _ _ _) => apply preserves_fold_right; intros ?
  | |- preserves _ (modify _) => apply preserves_modify; intros ? ?; tac
  | |- preserves _ (match ?x with _ => _ end) => destruct x
  end.

Ltac preserve_with tac := repeat (preserve_step tac).

Ltac frame_step := idtac;
  match goal with
  | H : validation_frame _ _ |- validation_frame _ _ =>
      unfold validation_frame in *; simpl;
      repeat match goal with
             | |- context [match ?x with _ => _ end] => destruct x; simpl
             end; exact H
  end.

Lemma validateField_frame (eng : Engine) (name : string)
    (rs : option (list ValidationRule)) (s0 : State) :
  preserves (validation_frame s0) (validateField eng name rs).
Proof.
  unfold validateField, validateField_rules, issues_of, message_of, delete_error.
  preserve_with frame_step.
Qed.

Lemma validate_fields_frame (eng : Engine) (entries : Obj (list ValidationRule))
    (ok : bool) (s0 : State) :
  preserves (validation_frame s0) (validate_fields eng entries ok).
Proof.
  revert ok. induction entries as [|[f rs] rest IH]; intros ok; simpl.
  - apply preserves_ret.
  - apply preserves_bind; [apply validateField_frame|intros a; apply IH].
Qed.

Lemma validate_frame (eng : Engine) (s0 : State) :
  preserves (validation_frame s0) (validate eng).
Proof.
  unfold validate, simplified, issues_of, inner_of, push_error.
  preserve_with frame_step; apply validate_fields_frame.
Qed.

(** ** Submission *)

(** The handler, one case per way of leaving it. *)
Lemma handleSubmit_cases (eng : Engine) (onValid : option SubmitCallback)
    (onInvalid : option InvalidCallback) (e : option Event) (s : State) :
  handleSubmit eng onValid onInvalid e s
  = match validate eng (submitting e s) with
    | (Throw err, s1) => (Throw err, s1)
    | (Ok r, s1) =>
        if form_valid r then
          match chosen_callback eng onValid with
          | Some cb =>
              match cb (values s1) (submissionContext eng) s1 with
              | (Ok _, s2) => (Ok tt, set_isSubmitting false s2)
              | (Throw err, s2) =>
                  (Ok tt, set_isSubmitting false
                            (emit (ConsoleError "Form submission error:" err) s2))
              end
          | None => (Ok tt, set_isSubmitting false s1)
          end
        else
          match onInvalid with
          | Some cb =>
              match cb (errors s1) s1 with
              | (Ok _, s2) => (Ok tt, set_isSubmitting false s2)
              | (Throw err, s2) => (Throw err, s2)
              end
          | None => (Ok tt, set_isSubmitting false s1)
          end
    end.
Proof.
  unfold handleSubmit, submitting, chosen_callback.
  unfold bind at 1.
  assert (Hpre :
    (match e with
     | Some _ => modify (emit PreventDefault);; modify (emit StopPropagation)
     | None => ret tt
     end) s
    = (Ok tt, match e with
              | Some _ => emit StopPropagation (emit PreventDefault s)
              | None => s
              end)) by (destruct e; reflexivity).
  rewrite Hpre. unfold bind, modify, try_catch, gets, ret. simpl.
  destruct (validate eng _) as [[r|err] s1]; [|reflexivity].
  destruct (form_valid r).
  - destruct onValid as [cb|]; [|destruct (onSubmit eng) as [cb|]]; simpl;
      try reflexivity;
      destruct (cb (values s1) (submissionContext eng) s1) as [[[]|err] s2];
      reflexivity.
  - destruct onInvalid as [cb|]; simpl; [|reflexivity].
    destruct (cb (errors s1) s1) as [[[]|err] s2]; reflexivity.
Qed.

(** C1 (amended): whenever the [validate()] of a submit handler
    resolves and the [onInvalid] callback, if it is called, returns,
    the handler resolves with [isSubmitting] false: after a successful
    submission, after a failure of [onValid]/[onSubmit], and after a
    validation that answers invalid.  The same holds for
    [submitForm]. *)
Theorem handleSubmit_clears_isSubmitting
    (eng : Engine) (onValid : option SubmitCallback)
    (onInvalid : option InvalidCallback) (e : option Event)
    (s : State) (r : FormResult) (s1 : State) :
  validate eng (submitting e s) = (Ok r, s1) ->
  (forall cb, form_valid r = false -> onInvalid = Some cb ->
              fst (cb (errors s1) s1) = Ok tt) ->
  (fst (handleSubmit eng onValid onInvalid e s) = Ok tt
   /\ isSubmitting (snd (handleSubmit eng onValid onInvalid e s)) = false)
  /\ (fst (submitForm eng e s) = Ok tt
      /\ isSubmitting (snd (submitForm eng e s)) = false).
Proof.
  intros Hval Hinv. unfold submitForm.
  rewrite !handleSubmit_cases, Hval.
  destruct (form_valid r) eqn:Hr.
  - split.
    + destruct (chosen_callback eng onValid) as [cb|]; [|split; reflexivity].
      destruct (cb (values s1) (submissionContext eng) s1) as [[[]|err] s2];
        split; reflexivity.
    + destruct (chosen_callback eng None) as [cb|]; [|split; reflexivity].
      destruct (cb (values s1) (submissionContext eng) s1) as [[[]|err] s2];
        split; reflexivity.
  - split; [|split; reflexivity].
    destruct onInvalid as [cb|]; [|split; reflexivity].
    specialize (Hinv cb eq_refl eq_refl).
    destruct (cb (errors s1) s1) as [[[]|err] s2]; simpl in *;
      [split; reflexivity|discriminate].
Qed.

Lemma handleSubmit_clears_isSubmitting_witness :
  fst (handleSubmit rejecting_engine None None (Some DomEvent) rejecting_state)
  = Ok tt
  /\ isSubmitting
       (snd (handleSubmit rejecting_engine None None (Some DomEvent) rejecting_state))
     = false.
Proof.
  apply (handleSubmit_clears_isSubmitting rejecting_engine None None
           (Some DomEvent) rejecting_state (mkFormResult true [])
           (snd (validate rejecting_engine
                   (submitting (Some DomEvent) rejecting_state)))).
  - reflexivity.
  - intros cb H. discriminate H.
Defined.

(** C1, the claim as stated fails: a rule predicate raises, so
    [validate()] rejects; the handler rejects with it and
    [isSubmitting] is still true. *)
Lemma handleSubmit_stuck_when_validation_raises :
  fst (validate trim_engine (submitting None trim_state))
  = Throw (TypeError "v.trim is not a function")
  /\ fst (handleSubmit trim_engine None None None trim_state)
     = Throw (TypeError "v.trim is not a function")
  /\ isSubmitting (snd (handleSubmit trim_engine None None None trim_state)) = true
  /\ isSubmitting (snd (submitForm trim_engine None trim_state)) = true.
Proof. repeat split. Qed.

(** C8: on a form whose validation succeeds, when the callback that
    is invoked ([onValid], else [onSubmit]) fails, the handler still
    resolves; the failure is logged to the console; the state is the
    one the callback left, with the log entry added and [isSubmitting]
    false, so neither [submitCount] (incremented before validation)
    nor the values are taken back. *)
Theorem handleSubmit_survives_callback_failure
    (eng : Engine) (onValid : option SubmitCallback)
    (onInvalid : option InvalidCallback) (e : option Event)
    (s : State) (r : FormResult) (s1 : State)
    (cb : SubmitCallback) (err : Thrown) (s2 : State) :
  validate eng (submitting e s) = (Ok r, s1) ->
  form_valid r = true ->
  chosen_callback eng onValid = Some cb ->
  cb (values s1) (submissionContext eng) s1 = (Throw err, s2) ->
  let out := handleSubmit eng onValid onInvalid e s in
  fst out = Ok tt
  /\ snd out
     = set_isSubmitting false (emit (ConsoleError "Form submission error:" err) s2)
  /\ isSubmitting (snd out) = false
  /\ trace (snd out) = trace s2 ++ [ConsoleError "Form submission error:" err]
  /\ submitCount (snd out) = submitCount s2
  /\ values (snd out) = values s2
  /\ heap (snd out) = heap s2
  /\ submitCount s1 = (submitCount s + 1)%Z
  /\ values s1 = values s
  /\ heap s1 = heap s.
Proof.
  intros Hval Hr Hcb Hrun out. subst out.
  rewrite handleSubmit_cases, Hval, Hr, Hcb, Hrun. simpl.
  pose proof (validate_frame eng (submitting e s) (submitting e s)) as Hf.
  rewrite Hval in Hf. simpl in Hf.
  destruct Hf as (Hh & Hv & _ & _ & Hc & _).
  { unfold validation_frame. repeat split. }
  rewrite Hh, Hv, Hc. unfold submitting.
  destruct e; simpl; repeat split; reflexivity.
Qed.

Lemma handleSubmit_survives_callback_failure_witness :
  fst (handleSubmit rejecting_engine None None None rejecting_state) = Ok tt
  /\ submitCount (snd (handleSubmit rejecting_engine None None None rejecting_state))
     = 1%Z.
Proof.
  pose proof (handleSubmit_survives_callback_failure rejecting_engine None None
                None rejecting_state (mkFormResult true [])
                (snd (validate rejecting_engine (submitting None rejecting_state)))
                rejecting (Error "Submission error")
                (snd (validate rejecting_engine (submitting None rejecting_state)))
                eq_refl eq_refl eq_refl eq_refl) as H.
  simpl in H. destruct H as (H1 & _ & _ & _ & H2 & _).
  split; [exact H1|exact H2].
Defined.

(** ** Whole-form validation with rules *)

Lemma validateField_rules_mode (eng : Engine) (f : string)
    (rs : list ValidationRule) (s : State) :
  isZodSchema eng = false -> isYupSchema eng = false ->
  validateField eng f (Some rs) s
  = match validateValue (js_get f (values_obj s)) rs with
    | Throw e => (Throw e, s)
    | Ok _ =>
        let verdict := rules_verdict (js_get f (values_obj s)) rs in
        (Ok (verdict_result verdict),
         set_errors (verdict_bag f verdict (errors s)) s)
    end.
Proof.
  intros Hz Hy. rewrite validateField_no_schema by assumption.
  unfold validateField_rules, rules_verdict, bind, await, modify, delete_error, ret.
  destruct (validateValue (js_get f (values_obj s)) rs) as [[msg|]|e]; simpl; auto.
  destruct (msg =? ""); reflexivity.
Qed.

Lemma validate_fields_rules_mode (eng : Engine) (vals : ValuesObj)
    (entries : Obj (list ValidationRule)) :
  isZodSchema eng = false -> isYupSchema eng = false ->
  forall (ok : bool) (s st : State),
    values_obj st = vals -> values_obj s = vals ->
    (forall f rs e, In (f, rs) entries -> validateValue (js_get f vals) rs <> Throw e) ->
    validate_fields eng entries ok st
    = (Ok (ok && forallb (entry_valid eng s) entries),
       set_errors (bag_after vals entries (errors st)) st).
Proof.
  intros Hz Hy. induction entries as [|[f rs] rest IH]; intros ok s st Hst Hs Hret.
  - simpl. rewrite andb_true_r. destruct st; reflexivity.
  - simpl. unfold bind, entry_valid. simpl.
    rewrite !validateField_rules_mode by assumption.
    rewrite Hst, Hs.
    destruct (validateValue (js_get f vals) rs) as [o|e] eqn:Hv.
    + simpl. rewrite IH with (s := s); auto.
      * simpl. f_equal. f_equal.
        destruct (rules_verdict (js_get f vals) rs); simpl; auto.
        now rewrite andb_false_r.
      * intros g rs' e Hin. apply Hret. now right.
    + exfalso. apply (Hret f rs e); [now left|exact Hv].
Qed.

Lemma obj_get_in_keys {A} (f : string) (o : Obj A) :
  obj_get f o <> None <-> In f (obj_keys o).
Proof.
  induction o as [|[k v] rest IH]; simpl.
  - split; [congruence|tauto].
  - destruct (k =? f) eqn:E.
    + apply String.eqb_eq in E. split; [now left|discriminate].
    + apply String.eqb_neq in E. rewrite IH. split; [now right|].
      intros [H|H]; [contradiction|exact H].
Qed.

Lemma verdict_bag_other (f g : string) (verdict : option string)
    (bag : Obj (list string)) :
  g <> f -> obj_get f (verdict_bag g verdict bag) = obj_get f bag.
Proof.
  intros Hne. destruct verdict; simpl.
  - now apply obj_get_set_other.
  - now apply obj_get_delete_other.
Qed.

Lemma verdict_bag_same (f : string) (verdict : option string)
    (bag : Obj (list string)) :
  obj_get f (verdict_bag f verdict bag) = option_map (fun msg => [msg]) verdict.
Proof.
  destruct verdict; simpl.
  - apply obj_get_set_same.
  - apply obj_get_delete_same.
Qed.

Lemma bag_after_untouched (vals : ValuesObj) (f : string)
    (entries : Obj (list ValidationRule)) (bag : Obj (list string)) :
  ~ In f (obj_keys entries) ->
  obj_get f (bag_after vals entries bag) = obj_get f bag.
Proof.
  revert bag. induction entries as [|[g rs] rest IH]; intros bag Hnin; simpl; auto.
  unfold bag_after in *. simpl in *.
  rewrite IH by tauto.
  apply verdict_bag_other. intros ->. tauto.
Qed.

Lemma bag_after_entry (vals : ValuesObj) (f : string) (rs : list ValidationRule)
    (entries : Obj (list ValidationRule)) (bag : Obj (list string)) :
  NoDup (obj_keys entries) -> In (f, rs) entries ->
  obj_get f (bag_after vals entries bag)
  = option_map (fun msg => [msg]) (rules_verdict (js_get f vals) rs).
Proof.
  revert bag. induction entries as [|[g rs'] rest IH]; intros bag Hnd Hin.
  - destruct Hin.
  - simpl in Hnd. inversion Hnd as [|? ? Hnin Hnd']; subst.
    destruct Hin as [Heq|Hin].
    + inversion Heq; subst. unfold bag_after. simpl.
      fold (bag_after vals rest (verdict_bag f (rules_verdict (js_get f vals) rs) bag)).
      rewrite bag_after_untouched by exact Hnin.
      apply verdict_bag_same.
    + unfold bag_after. simpl.
      fold (bag_after vals rest (verdict_bag g (rules_verdict (js_get g vals) rs') bag)).
      now apply IH.
Qed.

Lemma simple_errors_fold (bag : Obj (list string)) (f : string)
    (keys : list string) (acc : Obj (option string)) :
  obj_get f
    (fold_left (fun acc key => obj_set key (first_error key bag) acc) keys acc)
  = if existsb (String.eqb f) keys then Some (first_error f bag)
    else obj_get f acc.
Proof.
  revert acc. induction keys as [|k rest IH]; intros acc; simpl; auto.
  rewrite IH. destruct (existsb (String.eqb f) rest).
  - now rewrite orb_true_r.
  - rewrite orb_false_r. destruct (f =? k) eqn:E.
    + apply String.eqb_eq in E. subst k. now rewrite obj_get_set_same.
    + apply String.eqb_neq in E. rewrite obj_get_set_other; auto.
Qed.

(** Each key of the ErrorBag is mapped to the first message of its
    entry, and only those keys. *)
Lemma simple_errors_get (bag : Obj (list string)) (f : string) :
  obj_get f (simple_errors bag) = option_map (@hd_error string) (obj_get f bag).
Proof.
  unfold simple_errors. rewrite simple_errors_fold. simpl.
  unfold first_error.
  destruct (existsb (String.eqb f) (obj_keys bag)) eqn:E.
  - apply existsb_exists in E. destruct E as (k & Hin & Hk).
    apply String.eqb_eq in Hk. subst k.
    apply obj_get_in_keys in Hin.
    destruct (obj_get f bag); [reflexivity|congruence].
  - destruct (obj_get f bag) eqn:Hg; [|reflexivity].
    assert (Hin : In f (obj_keys bag)) by (apply obj_get_in_keys; congruence).
    assert (existsb (String.eqb f) (obj_keys bag) = true).
    { apply existsb_exists. exists f. split; auto. apply String.eqb_refl. }
    congruence.
Qed.

Lemma validate_rules_mode (eng : Engine) (s : State) :
  isZodSchema eng = false -> isYupSchema eng = false ->
  rules_return s ->
  validate eng s
  = (Ok (mkFormResult (forallb (entry_valid eng s) (fieldRules s))
           (simple_errors (bag_after (values_obj s) (fieldRules s) []))),
     set_isValidating false
       (set_errors (bag_after (values_obj s) (fieldRules s) []) s)).
Proof.
  intros Hz Hy Hret.
  assert (Hloop :
    validate_fields eng (fieldRules s) true (set_errors [] (set_isValidating true s))
    = (Ok (forallb (entry_valid eng s) (fieldRules s)),
       set_errors (bag_after (values_obj s) (fieldRules s) [])
         (set_errors [] (set_isValidating true s)))).
  { rewrite (validate_fields_rules_mode eng (values_obj s) (fieldRules s) Hz Hy
               true s); auto. }
  unfold validate.
  assert (Hrules :
    forall A (a b : ZodSchema -> A) (c : AnyObjectSchema -> A) (d : A),
      match activeSchema eng with
      | Some (SZod z) => a z
      | Some (SYup y) => c y
      | _ => d
      end = d).
  { intros A a b c d. unfold isZodSchema, isYupSchema in *.
    destruct (activeSchema eng) as [[z|y|r]|]; auto; discriminate. }
  unfold bind at 1 2. unfold modify at 1 2.
  rewrite (Hrules _ _ (fun _ => ret (mkFormResult true []))).
  unfold bind, gets, modify, simplified, ret. simpl.
  rewrite Hloop. reflexivity.
Qed.

(** C7 (amended): with a rules mapping as the schema (no external
    schema active) whose field names are not members of
    [Object.prototype] and whose rule predicates return on the values
    of their fields, [validate()] calls [validateField] on every entry
    of the mapping, whatever the earlier entries answered; it returns,
    and [valid] is the conjunction of the per-field answers; every
    field that fails has its messages in the ErrorBag and its first
    message in the returned [errors], also when a field before it
    failed; fields that pass or have no rule list have no entry; the
    returned [errors] maps each key of the ErrorBag to the first
    message of its entry; [isValidating] is false at the end. *)
Theorem validate_rules_checks_every_field (eng : Engine) (s : State) :
  isZodSchema eng = false -> isYupSchema eng = false ->
  NoDup (obj_keys (fieldRules s)) ->
  ordinary_keys (fieldRules s) ->
  rules_return s ->
  exists r s',
    validate eng s = (Ok r, s')
    /\ form_valid r = forallb (entry_valid eng s) (fieldRules s)
    /\ (forall f rs msgs,
           In (f, rs) (fieldRules s) ->
           fst (validateField eng f (Some rs) s) = Ok (mkFieldResult false msgs) ->
           obj_get f (errors s') = Some msgs
           /\ obj_get f (form_errors r) = Some (hd_error msgs))
    /\ (forall f rs,
           In (f, rs) (fieldRules s) ->
           fst (validateField eng f (Some rs) s) = Ok field_ok ->
           obj_get f (errors s') = None /\ obj_get f (form_errors r) = None)
    /\ (forall f, ~ In f (obj_keys (fieldRules s)) -> obj_get f (errors s') = None)
    /\ (forall f,
           obj_get f (form_errors r)
           = option_map (@hd_error string) (obj_get f (errors s')))
    /\ isValidating s' = false.
Proof.
  intros Hz Hy Hnd _ Hret.
  eexists. eexists. split; [apply validate_rules_mode; assumption|].
  simpl. split; [reflexivity|].
  assert (Hentry : forall f rs, In (f, rs) (fieldRules s) ->
            fst (validateField eng f (Some rs) s)
            = Ok (verdict_result (rules_verdict (js_get f (values_obj s)) rs))).
  { intros f rs Hin. rewrite validateField_rules_mode by assumption.
    destruct (validateValue (js_get f (values_obj s)) rs) as [o|e] eqn:Hv; auto.
    exfalso. exact (Hret f rs e Hin Hv). }
  split; [|split; [|split; [|split]]].
  - intros f rs msgs Hin Hres.
    rewrite simple_errors_get.
    rewrite (bag_after_entry (values_obj s) f rs) by assumption.
    rewrite (Hentry f rs Hin) in Hres.
    destruct (rules_verdict (js_get f (values_obj s)) rs); simpl in *;
      inversion Hres; split; reflexivity.
  - intros f rs Hin Hres.
    rewrite simple_errors_get.
    rewrite (bag_after_entry (values_obj s) f rs) by assumption.
    rewrite (Hentry f rs Hin) in Hres.
    destruct (rules_verdict (js_get f (values_obj s)) rs); simpl in *;
      [discriminate|split; reflexivity].
  - intros f Hnin. now rewrite bag_after_untouched.
  - intros f. apply simple_errors_get.
  - reflexivity.
Qed.

Lemma validate_rules_checks_every_field_witness :
  exists r s',
    validate two_engine two_state = (Ok r, s')
    /\ form_valid r = false
    /\ obj_get "name" (form_errors r) = Some (Some "Name is required")
    /\ obj_get "email" (form_errors r) = Some (Some "Invalid email").
Proof.
  destruct (validate_rules_checks_every_field two_engine two_state)
    as (r & s' & Hrun & Hvalid & Hfail & _).
  - reflexivity.
  - reflexivity.
  - simpl. repeat constructor; simpl; intuition discriminate.
  - intros k [H|[H|[]]]; subst k; reflexivity.
  - intros f rs e [H|[H|[]]]; inversion H; subst; vm_compute; discriminate.
  - exists r, s'. split; [exact Hrun|]. split; [rewrite Hvalid; reflexivity|].
    split.
    + apply (Hfail "name" [required_rule "Name is required"] ["Name is required"]);
        [now left|reflexivity].
    + apply (Hfail "email"
               [required_rule "Email is required"; mkRule email RvUndefined "Invalid email"]
               ["Invalid email"]);
        [right; now left|reflexivity].
Defined.

(** C7, the claim as stated fails when a rule predicate raises: the
    predicate of [age], written for strings, raises on the number 5;
    [validate()] rejects with that failure and returns no result; the
    [name] field, which comes after and fails its [required] rule
    when validated alone, has not been validated: it has no entry in
    the ErrorBag; and [isValidating] is left true. *)
Lemma validate_rules_stops_at_raising_predicate :
  fst (validate raising_engine raising_state)
  = Throw (TypeError "v.trim is not a function")
  /\ fst (validateField raising_engine "name"
            (Some [required_rule "Name is required"]) raising_state)
     = Ok (mkFieldResult false ["Name is required"])
  /\ obj_get "name" (errors (snd (validate raising_engine raising_state))) = None
  /\ isValidating (snd (validate raising_engine raising_state)) = true.
Proof. repeat split. Qed.

(** ** Reset and the caller's initial values *)

Section InitialValues.
Variable eng : Engine.
Variable iv : ValuesObj.

Lemma inv_write_value (name : string) (v : JsVal) (s : State) :
  inv eng iv s -> inv eng iv (write_value name v s).
Proof.
  intros (Hi & Hv & Hne & Hiv). unfold inv, write_value. simpl.
  rewrite heap_set_length, heap_get_set_other by exact Hne. auto.
Qed.

Lemma inv_fresh_values (source : loc) (s : State) :
  inv eng iv s ->
  inv eng iv
    (let (fresh, h) := heap_alloc (heap_get source (heap s)) (heap s) in
     set_values fresh (set_heap h s)).
Proof.
  intros (Hi & Hv & Hne & Hiv). unfold inv, heap_alloc. simpl.
  rewrite length_app. simpl. repeat split; try lia.
  unfold heap_get in *. now rewrite app_nth1.
Qed.

Ltac inv_step := idtac;
  first
    [ apply inv_write_value; assumption
    | apply inv_fresh_values; assumption
    | match goal with
      | H : inv _ _ _ |- inv _ _ _ =>
          unfold inv in *; simpl;
          repeat match goal with
                 | |- context [match ?x with _ => _ end] => destruct x; simpl
                 end; exact H
      end ].

Lemma setFieldValue_inv (name : string) (v : JsVal) :
  preserves (inv eng iv) (setFieldValue name v).
Proof. unfold setFieldValue, ensure_meta, update_meta. preserve_with inv_step. Qed.

Lemma setValues_inv (fields : Obj JsVal) :
  preserves (inv eng iv) (setValues fields).
Proof. apply preserves_forEach. intros k v. apply setFieldValue_inv. Qed.

Lemma setFieldError_inv (name err : string) :
  preserves (inv eng iv) (setFieldError name err).
Proof. unfold setFieldError. preserve_with inv_step. Qed.

Lemma setErrors_inv (fields : Obj string) :
  preserves (inv eng iv) (setErrors fields).
Proof. apply preserves_forEach. intros k v. apply setFieldError_inv. Qed.

Lemma setServerErrors_inv (serverErrors : Obj (list string)) :
  preserves (inv eng iv) (setServerErrors serverErrors).
Proof. unfold setServerErrors. preserve_with inv_step. Qed.

Lemma setFieldTouched_inv (name : string) (t : bool) :
  preserves (inv eng iv) (setFieldTouched name t).
Proof. unfold setFieldTouched, update_meta. preserve_with inv_step. Qed.

Lemma setTouched_inv (fields : Obj bool) :
  preserves (inv eng iv) (setTouched fields).
Proof. apply preserves_forEach. intros k v. apply setFieldTouched_inv. Qed.

Lemma getFieldMeta_inv (name : string) :
  preserves (inv eng iv) (getFieldMeta name).
Proof.
  unfold getFieldMeta, getFieldError, ensure_meta, update_meta.
  preserve_with inv_step.
Qed.

Lemma validateField_inv (e' : Engine) (name : string) (rs : option (list ValidationRule)) :
  preserves (inv eng iv) (validateField e' name rs).
Proof.
  unfold validateField, validateField_rules, issues_of, message_of, delete_error.
  preserve_with inv_step.
Qed.

Lemma validate_fields_inv (e' : Engine) (entries : Obj (list ValidationRule)) (ok : bool) :
  preserves (inv eng iv) (validate_fields e' entries ok).
Proof.
  revert ok. induction entries as [|[f rs] rest IH]; intros ok; simpl.
  - apply preserves_ret.
  - apply preserves_bind; [apply validateField_inv|intros a; apply IH].
Qed.

Lemma validate_inv (e' : Engine) : preserves (inv eng iv) (validate e').
Proof.
  unfold validate, simplified, issues_of, inner_of, push_error.
  preserve_with inv_step; apply validate_fields_inv.
Qed.

Lemma resetForm_inv (state : option PartialState.t) :
  preserves (inv eng iv) (resetForm eng state).
Proof. unfold resetForm. preserve_with inv_step. Qed.

Lemma ctx_call_inv (c : CtxCall) :
  preserves (inv eng iv) (ctx_call (submissionContext eng) c).
Proof.
  destruct c; simpl.
  - apply resetForm_inv.
  - apply setErrors_inv.
  - apply setFieldError_inv.
  - apply setFieldValue_inv.
  - apply setValues_inv.
  - apply setFieldTouched_inv.
  - apply setTouched_inv.
Qed.

Lemma run_script_inv (sc : Script) :
  preserves (inv eng iv) (run_script (submissionContext eng) sc).
Proof.
  unfold run_script. apply preserves_bind.
  - induction (calls sc) as [|c rest IH]; simpl.
    + apply preserves_ret.
    + apply preserves_bind; [apply ctx_call_inv|intros ?; exact IH].
  - intros ?. destruct (failure sc); [apply preserves_throw|apply preserves_ret].
Qed.

Lemma handleSubmit_inv (onValid : option SubmitCallback)
    (onInvalid : option InvalidCallback) (e : option Event) :
  (forall cb vals, chosen_callback eng onValid = Some cb ->
                   preserves (inv eng iv) (cb vals (submissionContext eng))) ->
  (forall cb bag, onInvalid = Some cb -> preserves (inv eng iv) (cb bag)) ->
  preserves (inv eng iv) (handleSubmit eng onValid onInvalid e).
Proof.
  intros Hvalid Hinvalid. unfold handleSubmit, chosen_callback in *.
  apply preserves_bind; [preserve_with inv_step|intros ?].
  apply preserves_bind; [preserve_with inv_step|intros ?].
  apply preserves_bind; [preserve_with inv_step|intros ?].
  apply preserves_bind; [apply validate_inv|intros r].
  apply preserves_bind; [|intros ?; preserve_with inv_step].
  destruct (form_valid r).
  - apply preserves_try_catch; [|intros err; preserve_with inv_step].
    destruct onValid as [cb|]; [|destruct (onSubmit eng) as [cb|]].
    + apply preserves_bind; [apply preserves_gets|intros vals].
      now apply Hvalid.
    + apply preserves_bind; [apply preserves_gets|intros vals].
      now apply Hvalid.
    + apply preserves_ret.
  - destruct onInvalid as [cb|]; [|apply preserves_ret].
    apply preserves_bind; [apply preserves_gets|intros bag].
    now apply Hinvalid.
Qed.

Lemma register_inv (name : string) (options : option RegisterOptions) :
  preserves (inv eng iv) (register eng name options).
Proof. unfold register. preserve_with inv_step. Qed.

Lemma binding_inv (name : string) (rs : option (list ValidationRule))
    (on : ValidateOn) (use : BindingUse) :
  preserves (inv eng iv)
    match use with
    | UseNothing => ret tt
    | UseValue => binding_value (binding eng name rs on) ;; ret tt
    | UseInput text => onInput (binding eng name rs on) text
    | UseBlur => onBlur (binding eng name rs on)
    end.
Proof.
  destruct use; simpl.
  - apply preserves_ret.
  - preserve_with inv_step.
  - apply preserves_bind; [apply setFieldValue_inv|intros ?].
    destruct on; try apply preserves_ret.
    apply preserves_detached, validateField_inv.
  - unfold ensure_meta, update_meta.
    apply preserves_bind; [preserve_with inv_step|intros ?].
    apply preserves_bind; [preserve_with inv_step|intros ?].
    destruct on; try apply preserves_ret.
    apply preserves_detached, validateField_inv.
Qed.

(** [register] returns the binding of its arguments. *)
Lemma register_returns (name : string) (options : option RegisterOptions)
    (s : State) :
  exists rs on,
    fst (register eng name options s) = Ok (binding eng name rs on).
Proof.
  unfold register, bind, modify, gets, ret.
  destruct options as [[[rs|] on]|]; simpl;
    match goal with
    | |- context [truthy ?x] => destruct (truthy x)
    end; simpl; eauto.
Qed.

Lemma run_op_inv (op : Op) (s : State) :
  (exists osc, onSubmit eng = option_map script_callback osc) ->
  writes_initial op = false ->
  inv eng iv s -> inv eng iv (run_op eng op s).
Proof.
  intros (osc & Hsub) Hop H. destruct op; unfold run_op, submitForm, handleReset.
  - now apply setFieldValue_inv.
  - now apply setValues_inv.
  - now apply setFieldError_inv.
  - now apply setErrors_inv.
  - now apply setServerErrors_inv.
  - now apply setFieldTouched_inv.
  - now apply setTouched_inv.
  - exact H.
  - now apply getFieldMeta_inv.
  - now apply validateField_inv.
  - now apply validate_inv.
  - apply handleSubmit_inv; auto.
    + intros cb vals Hcb. unfold chosen_callback in Hcb.
      destruct onValid as [sc|]; simpl in Hcb.
      * inversion Hcb; subst. apply run_script_inv.
      * rewrite Hsub in Hcb. destruct osc as [sc|]; inversion Hcb; subst.
        apply run_script_inv.
    + intros cb bag Hcb. destruct onInvalid as [sc|]; inversion Hcb; subst.
      apply run_script_inv.
  - apply handleSubmit_inv; auto.
    + intros cb vals Hcb. unfold chosen_callback in Hcb.
      rewrite Hsub in Hcb. destruct osc as [sc|]; inversion Hcb; subst.
      apply run_script_inv.
    + discriminate.
  - now apply resetForm_inv.
  - now apply resetForm_inv.
  - unfold bind.
    destruct (register_returns name options s) as (rs & on & Hb).
    pose proof (register_inv name options s H) as Hr.
    destruct (register eng name options s) as [[b|err] s1]; simpl in *.
    + inversion Hb; subst b. now apply binding_inv.
    + exact Hr.
  - discriminate Hop.
Qed.

Lemma run_ops_inv (ops : list Op) (s : State) :
  (exists osc, onSubmit eng = option_map script_callback osc) ->
  caller_silent ops ->
  inv eng iv s -> inv eng iv (run_ops eng ops s).
Proof.
  intros Hsub. revert s. unfold run_ops, caller_silent.
  induction ops as [|op rest IH]; intros s Hsilent H; simpl; auto.
  apply IH.
  - intros op' Hin. apply Hsilent. now right.
  - apply run_op_inv; auto. apply Hsilent. now left.
Qed.
End InitialValues.

(** A write of the caller changes the contents of its object and
    nothing else. *)
Lemma write_initial_inv (eng : Engine) (iv contents : ValuesObj) (s : State) :
  inv eng iv s -> inv eng contents (write_initial eng contents s).
Proof.
  intros (Hi & Hv & Hne & Hiv). unfold inv, write_initial. simpl.
  rewrite heap_set_length, heap_get_set_same by exact Hi.
  repeat split; auto.
Qed.

(** Whatever the engine and the caller do, the values object of the
    engine stays apart from the caller's object. *)
Lemma run_ops_separate (eng : Engine) (ops : list Op) (s : State) :
  (exists osc, onSubmit eng = option_map script_callback osc) ->
  (exists iv, inv eng iv s) ->
  exists iv, inv eng iv (run_ops eng ops s).
Proof.
  intros Hsub. revert s. unfold run_ops.
  induction ops as [|op rest IH]; intros s (iv & H); simpl; eauto.
  apply IH. destruct (writes_initial op) eqn:Hop.
  - destruct op; try discriminate Hop. simpl.
    eexists. eapply write_initial_inv. exact H.
  - exists iv. now apply run_op_inv.
Qed.

Lemma useForm_onSubmit (h : Heap) (options : Options.t) :
  onSubmit (fst (useForm h options)) = Options.onSubmit options.
Proof.
  unfold useForm.
  destruct (Options.initialValues options); simpl;
    destruct (Options.validateOnMount options) as [[|]|]; reflexivity.
Qed.

Lemma useForm_scripted (h : Heap) (options : Options.t) (osc : option Script) :
  Options.onSubmit options = option_map script_callback osc ->
  exists osc', onSubmit (fst (useForm h options)) = option_map script_callback osc'.
Proof. intros H. exists osc. now rewrite useForm_onSubmit. Qed.

Lemma useForm_inv (h : Heap) (options : Options.t) :
  (forall l, Options.initialValues options = Some l -> l < List.length h) ->
  inv (fst (useForm h options))
      (initial_object h (Options.initialValues options))
      (snd (useForm h options)).
Proof.
  intros Hl. unfold useForm.
  set (sch := active_schema options).
  destruct (Options.initialValues options) as [l|] eqn:Hiv.
  - specialize (Hl l eq_refl). simpl.
    set (eng := mkEngine l sch (Options.onSubmit options)).
    set (s0 := mkState _ _ _ _ _ _ _ _ _).
    assert (H0 : inv eng (heap_get l h) s0).
    { unfold inv, s0. simpl. rewrite length_app. simpl.
      repeat split; try lia. unfold heap_get. now rewrite app_nth1. }
    assert (H1 : inv eng (heap_get l h)
                   match Options.initialTouched options with
                   | Some it => snd (setTouched it s0)
                   | None => s0
                   end).
    { destruct (Options.initialTouched options); auto. now apply setTouched_inv. }
    destruct (Options.validateOnMount options) as [[|]|]; simpl; auto.
    now apply validate_inv.
  - simpl.
    set (eng := mkEngine (List.length h) sch (Options.onSubmit options)).
    set (s0 := mkState _ _ _ _ _ _ _ _ _).
    assert (H0 : inv eng [] s0).
    { unfold inv, s0. simpl. rewrite !length_app. simpl.
      repeat split; try lia. unfold heap_get.
      rewrite app_nth1 by (rewrite length_app; simpl; lia).
      rewrite app_nth2 by lia. now rewrite Nat.sub_diag. }
    assert (H1 : inv eng []
                   match Options.initialTouched options with
                   | Some it => snd (setTouched it s0)
                   | None => s0
                   end).
    { destruct (Options.initialTouched options); auto. now apply setTouched_inv. }
    destruct (Options.validateOnMount options) as [[|]|]; simpl; auto.
    now apply validate_inv.
Qed.

(** [resetForm()] in a state where the caller's object holds [iv]. *)
Lemma resetForm_no_argument (eng : Engine) (iv : ValuesObj) (s : State) :
  inv eng iv s ->
  let out := resetForm eng None s in
  fst out = Ok tt
  /\ values_obj (snd out) = iv
  /\ values (snd out) <> initialValues eng
  /\ values (snd out) <> values s
  /\ heap_get (initialValues eng) (heap (snd out)) = iv
  /\ errors (snd out) = []
  /\ fieldsMeta (snd out) = []
  /\ submitCount (snd out) = 0%Z
  /\ isSubmitting (snd out) = false
  /\ isValidating (snd out) = false.
Proof.
  intros (Hi & Hv & Hne & Hiv). simpl.
  unfold values_obj, heap_get in *. simpl.
  repeat split; try lia.
  - rewrite app_nth2 by lia. rewrite Nat.sub_diag. exact Hiv.
  - now rewrite app_nth1.
Qed.

(** C6 (amended): for an engine built by [useForm] and driven by any
    sequence of operations of the engine and of changes the caller
    makes to the object it passed as [initialValues], [resetForm()]
    without argument returns and leaves: a values object with the
    contents that the caller's object has when [resetForm] is called, at a
    reference that is neither the caller's object nor the previous
    values object, while the caller's object keeps its contents; an
    empty ErrorBag; an empty FieldMeta map; [submitCount] 0;
    [isSubmitting] and [isValidating] false.  If the caller has not
    changed its object, the contents are those the object had at
    construction. *)
Theorem resetForm_restores_initial_values
    (h : Heap) (initial : option loc) (initialErrors : option (Obj string))
    (initialTouched : option (Obj bool))
    (validationSchema schema : option Schema) (validateOnMount : option bool)
    (onSubmit : option Script) (ops : list Op) :
  (forall l, initial = Some l -> l < List.length h) ->
  let options :=
    Options.make initial initialErrors initialTouched validationSchema schema
      validateOnMount (option_map script_callback onSubmit) in
  let eng := fst (useForm h options) in
  let s := run_ops eng ops (snd (useForm h options)) in
  let out := resetForm eng None s in
  fst out = Ok tt
  /\ values_obj (snd out) = heap_get (initialValues eng) (heap s)
  /\ (caller_silent ops ->
      heap_get (initialValues eng) (heap s) = initial_object h initial)
  /\ values (snd out) <> initialValues eng
  /\ values (snd out) <> values s
  /\ heap_get (initialValues eng) (heap (snd out))
     = heap_get (initialValues eng) (heap s)
  /\ errors (snd out) = []
  /\ fieldsMeta (snd out) = []
  /\ submitCount (snd out) = 0%Z
  /\ isSubmitting (snd out) = false
  /\ isValidating (snd out) = false.
Proof.
  intros Hl options eng s out.
  pose proof (useForm_scripted h options onSubmit eq_refl) as Hsub.
  fold eng in Hsub.
  pose proof (useForm_inv h options Hl) as H0.
  destruct (run_ops_separate eng ops (snd (useForm h options)) Hsub)
    as (iv & Hinv); [eexists; exact H0|].
  fold s in Hinv.
  assert (Hcur : heap_get (initialValues eng) (heap s) = iv) by apply Hinv.
  destruct (resetForm_no_argument eng iv s Hinv)
    as (Hok & Hvals & Hne1 & Hne2 & Hkeep & Hrest).
  fold out in Hok, Hvals, Hne1, Hne2, Hkeep, Hrest.
  rewrite Hcur.
  split; [exact Hok|]. split; [exact Hvals|]. split.
  - intros Hsilent.
    pose proof (run_ops_inv eng _ ops _ Hsub Hsilent H0) as Hfix.
    fold s in Hfix. rewrite <- Hcur. apply Hfix.
  - split; [exact Hne1|]. split; [exact Hne2|]. split; [exact Hkeep|exact Hrest].
Qed.

(** The field is edited and submitted, then the form is reset: the
    values are the initial ones again. *)
Lemma resetForm_restores_initial_values_witness :
  let ops := [CallSetFieldValue "name" (VStr "Jane");
              CallSetFieldError "name" "Error";
              CallHandleSubmit None None None] in
  let s := run_ops sample_engine ops sample_state in
  values_obj s = [("name", VStr "Jane")]
  /\ values_obj (snd (resetForm sample_engine None s)) = [("name", VStr "")].
Proof.
  intros ops s. split; [reflexivity|].
  pose proof (resetForm_restores_initial_values sample_heap (Some 0) None None None
                (Some (SRules [("name", [required_rule "Name is required"])]))
                None None ops) as H.
  destruct H as (_ & Hvals & Hsilent & _).
  - intros l Hl. inversion Hl. simpl. lia.
  - etransitivity; [exact Hvals|]. apply Hsilent.
    intros op [H|[H|[H|[]]]]; subst op; reflexivity.
Defined.

(** C6, the claim as stated fails when the caller writes to the
    object it passed as [initialValues]: that object held
    [{ name: '' }] at construction; the caller then sets its [name]
    to ['Changed'], which leaves the values of the form as they are;
    [resetForm()] leaves the values [{ name: 'Changed' }], not the
    construction-time ones. *)
Lemma resetForm_follows_caller_writes :
  let s := run_ops sample_engine [MutateInitialValues [("name", VStr "Changed")]]
             sample_state in
  initial_object sample_heap (Some 0) = [("name", VStr "")]
  /\ values_obj sample_state = [("name", VStr "")]
  /\ values_obj s = [("name", VStr "")]
  /\ values_obj (snd (resetForm sample_engine None s)) = [("name", VStr "Changed")]
  /\ values_obj (snd (resetForm sample_engine None s))
     <> initial_object sample_heap (Some 0).
Proof. repeat split. discriminate. Qed.

(** * Further properties of the engine *)

(** ** More on objects *)

Lemma obj_get_absent {A} (k : string) (o : Obj A) :
  ~ In k (obj_keys o) -> obj_get k o = None.
Proof.
  intros Hnin. destruct (obj_get k o) eqn:E; auto.
  exfalso. apply Hnin. apply obj_get_in_keys. congruence.
Qed.

Lemma obj_set_twice {A} (k : string) (v v' : A) (o : Obj A) :
  obj_set k v (obj_set k v' o) = obj_set k v o.
Proof.
  induction o as [|[k0 v0] rest IH]; simpl.
  - now rewrite String.eqb_refl.
  - destruct (k0 =? k) eqn:E; simpl; rewrite E; auto. now rewrite IH.
Qed.


(** Assigning every entry of a mapping with distinct keys. *)
Lemma obj_assign_each_get {A B} (f : A -> B) (k : string)
    (src : Obj A) (dst : Obj B) :
  distinct_keys src ->
  obj_get k (obj_assign_each f src dst)
  = match obj_get k src with
    | Some v => Some (f v)
    | None => obj_get k dst
    end.
Proof.
  unfold distinct_keys, obj_assign_each. revert dst.
  induction src as [|[k0 v0] rest IH]; intros dst Hnd; simpl; auto.
  inversion Hnd as [|? ? Hnin Hnd']; subst.
  rewrite IH by exact Hnd'. simpl.
  destruct (k0 =? k) eqn:E.
  - apply String.eqb_eq in E. subst k0.
    rewrite (obj_get_absent k rest Hnin). apply obj_get_set_same.
  - apply String.eqb_neq in E.
    destruct (obj_get k rest); auto. now apply obj_get_set_other.
Qed.


(** ** Setting and reading errors *)




(** X3: [setServerErrors(serverErrors)] replaces the entry of every
    field it names by the list given and leaves the others.  A field
    given the empty list has no first error, yet its entry makes
    [meta.valid] false. *)
Theorem setServerErrors_merges (eng : Engine) (serverErrors : Obj (list string)) (s : State) :
  distinct_keys serverErrors ->
  let s' := snd (setServerErrors serverErrors s) in
  (forall name,
      obj_get name (errors s')
      = match obj_get name serverErrors with
        | Some msgs => Some msgs
        | None => obj_get name (errors s)
        end)
  /\ (forall name, obj_get name serverErrors = Some [] ->
        getFieldError name s' = (Ok None, s')
        /\ FormMeta.valid (meta eng s') = false).
Proof.
  intros Hnd. simpl. split.
  - intros name. now apply obj_assign_each_get.
  - intros name Hget. unfold getFieldError, gets, first_error. simpl.
    rewrite obj_assign_each_get by exact Hnd. rewrite Hget. split; auto.
    assert (Hin : In name (obj_keys (obj_assign_each (fun l => l) serverErrors (errors s)))).
    { apply obj_get_in_keys. rewrite obj_assign_each_get by exact Hnd.
      rewrite Hget. discriminate. }
    destruct (obj_keys _); [destruct Hin|reflexivity].
Qed.

(** ** Values and touched flags *)

Lemma setFieldValue_state (name : string) (v : JsVal) (s : State) :
  setFieldValue name v s
  = (Ok tt,
     set_fieldsMeta
       (obj_set name (with_dirty true (meta_or_new name s)) (fieldsMeta s))
       (write_value name v s)).
Proof.
  unfold setFieldValue, ensure_meta, update_meta, meta_or_new, bind, modify, gets, ret.
  simpl. destruct (obj_get name (fieldsMeta s)) as [m|] eqn:Hm; simpl.
  - now rewrite Hm.
  - rewrite obj_get_set_same. simpl. now rewrite obj_set_twice.
Qed.

Lemma setFieldTouched_state (name : string) (t : bool) (s : State) :
  setFieldTouched name t s
  = (Ok tt,
     set_fieldsMeta
       (obj_set name (with_touched t (meta_or_new name s)) (fieldsMeta s)) s).
Proof.
  unfold setFieldTouched, update_meta, meta_or_new, bind, modify, gets.
  simpl. destruct (obj_get name (fieldsMeta s)) as [m|] eqn:Hm; simpl.
  - unfold modify. now rewrite Hm.
  - reflexivity.
Qed.


Lemma allocated_setFieldValue (name : string) (v : JsVal) (s : State) :
  allocated s -> allocated (snd (setFieldValue name v s)).
Proof.
  rewrite setFieldValue_state. unfold allocated, write_value. simpl.
  now rewrite heap_set_length.
Qed.

Lemma heap_set_dangling (l : loc) (o : ValuesObj) (h : Heap) :
  List.length h <= l -> heap_set l o h = h.
Proof.
  revert l. induction h as [|x rest IH]; intros [|l] Hl; simpl in *; auto; try lia.
  f_equal. apply IH. lia.
Qed.

Lemma js_get_write_other (name other : string) (v : JsVal) (s : State) :
  other <> name ->
  js_get other (values_obj (write_value name v s)) = js_get other (values_obj s).
Proof.
  intros Hne. unfold js_get, values_obj, write_value. simpl.
  destruct (Nat.lt_ge_cases (values s) (List.length (heap s))) as [Hl|Hl].
  - rewrite heap_get_set_same by exact Hl.
    rewrite obj_get_set_other by congruence. reflexivity.
  - now rewrite heap_set_dangling.
Qed.

(** X4: for [fields] whose names are not members of
    [Object.prototype], [setValues(fields)] returns; afterwards every
    field of [fields] reads back its value and is dirty, every other
    field reads as before, the ErrorBag is untouched, and if [fields]
    is not empty the form's [meta.dirty] is true. *)
Theorem setValues_sets_each_value (eng : Engine) (fields : Obj JsVal) (s : State) :
  allocated s -> distinct_keys fields -> ordinary_keys fields ->
  let s' := snd (setValues fields s) in
  fst (setValues fields s) = Ok tt
  /\ (forall name,
        js_get name (values_obj s')
        = match obj_get name fields with
          | Some v => v
          | None => js_get name (values_obj s)
          end)
  /\ (forall name v, obj_get name fields = Some v ->
        exists m, obj_get name (fieldsMeta s') = Some m /\ dirty m = true)
  /\ (fields <> [] -> FormMeta.dirty (meta eng s') = true)
  /\ errors s' = errors s.
Proof.
  intros Hs Hnd _. revert s Hs Hnd. unfold setValues, distinct_keys.
  induction fields as [|[k v] rest IH]; intros s Hs Hnd.
  - simpl. repeat split; auto; try congruence.
  - inversion Hnd as [|? ? Hnin Hnd']; subst.
    assert (Hrun : forEach setFieldValue ((k, v) :: rest) s
                   = forEach setFieldValue rest (snd (setFieldValue k v s))).
    { simpl. unfold bind. now rewrite setFieldValue_state. }
    cbv zeta. rewrite Hrun.
    destruct (IH (snd (setFieldValue k v s)) (allocated_setFieldValue k v s Hs) Hnd')
      as (Hok & Hvals & Hdirty & _ & Herr).
    assert (Hk : exists m, obj_get k (fieldsMeta (snd (forEach setFieldValue rest (snd (setFieldValue k v s))))) = Some m
                           /\ dirty m = true).
    { clear - Hnin. revert Hnin.
      assert (Hstart : exists m, obj_get k (fieldsMeta (snd (setFieldValue k v s))) = Some m /\ dirty m = true).
      { rewrite setFieldValue_state. simpl. eexists. rewrite obj_get_set_same. split; reflexivity. }
      revert Hstart. generalize (snd (setFieldValue k v s)). clear s.
      induction rest as [|[k1 v1] rest IH]; intros s Hstart Hnin; simpl; auto.
      unfold bind. rewrite setFieldValue_state. cbv iota beta.
      apply IH.
      - simpl. destruct Hstart as (m & Hm & Hd). exists m. split; auto.
        rewrite obj_get_set_other; auto. simpl in Hnin. tauto.
      - simpl in Hnin. tauto. }
    split; [exact Hok|]. split; [|split; [|split]].
    + intros name. rewrite Hvals. simpl.
      destruct (k =? name) eqn:E.
      * apply String.eqb_eq in E. subst name.
        rewrite (obj_get_absent k rest Hnin).
        rewrite setFieldValue_state. simpl.
        change (values_obj (set_fieldsMeta _ (write_value k v s)))
          with (values_obj (write_value k v s)).
        unfold js_get. now rewrite (write_value_reads_back k v s Hs).
      * apply String.eqb_neq in E. destruct (obj_get name rest); auto.
        rewrite setFieldValue_state. simpl.
        change (values_obj (set_fieldsMeta _ (write_value k v s)))
          with (values_obj (write_value k v s)).
        apply js_get_write_other. congruence.
    + intros name v0 Hget. simpl in Hget. destruct (k =? name) eqn:E.
      * apply String.eqb_eq in E. subst name. exact Hk.
      * now apply (Hdirty name v0).
    + intros _. unfold meta, some_field. simpl.
      destruct Hk as (m & Hm & Hd).
      apply existsb_exists. 
      assert (Hin : exists x, In (k, x) (fieldsMeta (snd (forEach setFieldValue rest (snd (setFieldValue k v s))))) /\ x = m).
      { revert Hm. generalize (fieldsMeta (snd (forEach setFieldValue rest (snd (setFieldValue k v s))))).
        intros o. induction o as [|[k2 m2] o IHo]; simpl; [discriminate|].
        destruct (k2 =? k) eqn:E2.
        - apply String.eqb_eq in E2. subst k2. intros H; inversion H; subst. eauto.
        - intros H. destruct (IHo H) as (x & Hx & Hxm). eauto. }
      destruct Hin as (x & Hin & ->). exists (k, m). split; auto.
    + rewrite Herr. rewrite setFieldValue_state. reflexivity.
Qed.

(** ** Field meta *)



(** ** What validation changes *)

Ltac flag_step := idtac;
  match goal with
  | H : validating_is _ _ |- validating_is _ _ =>
      unfold validating_is in *; simpl;
      repeat match goal with
             | |- context [match ?x with _ => _ end] => destruct x; simpl
             end; exact H
  end.

Lemma validateField_validating (b : bool) (eng : Engine) (name : string)
    (rs : option (list ValidationRule)) :
  preserves (validating_is b) (validateField eng name rs).
Proof.
  unfold validateField, validateField_rules, issues_of, message_of, delete_error.
  preserve_with flag_step.
Qed.

Lemma validate_fields_validating (b : bool) (eng : Engine)
    (entries : Obj (list ValidationRule)) (ok : bool) :
  preserves (validating_is b) (validate_fields eng entries ok).
Proof.
  revert ok. induction entries as [|[f rs] rest IH]; intros ok; simpl.
  - apply preserves_ret.
  - apply preserves_bind; [apply validateField_validating|intros a; apply IH].
Qed.

Section OtherField.
Variables (name other : string) (x : option (list string)).
Hypothesis different : other <> name.

Ltac entry_step := idtac;
  match goal with
  | H : entry_is _ _ _ |- entry_is _ _ _ =>
      unfold entry_is in *; simpl;
      rewrite ?obj_get_set_other, ?obj_get_delete_other by congruence;
      exact H
  end.

Lemma validateField_other_entry (eng : Engine) (rs : option (list ValidationRule)) :
  preserves (entry_is other x) (validateField eng name rs).
Proof.
  unfold validateField, validateField_rules, issues_of, message_of, delete_error.
  preserve_with entry_step.
Qed.
End OtherField.

(** X8: [validateField(name)], under every schema and whatever its
    outcome, changes nothing but the ErrorBag entry of [name]: the
    entries of the other fields, [isValidating], the values, the
    FieldMeta map, the registered rules and the submission state are
    as before. *)
Theorem validateField_touches_only_its_entry (eng : Engine) (name other : string)
    (rs : option (list ValidationRule)) (s : State) :
  other <> name ->
  let s' := snd (validateField eng name rs s) in
  obj_get other (errors s') = obj_get other (errors s)
  /\ isValidating s' = isValidating s
  /\ heap s' = heap s /\ values s' = values s
  /\ fieldsMeta s' = fieldsMeta s /\ fieldRules s' = fieldRules s
  /\ isSubmitting s' = isSubmitting s /\ submitCount s' = submitCount s.
Proof.
  intros Hne s'. subst s'.
  pose proof (validateField_other_entry name other (obj_get other (errors s))
                Hne eng rs s eq_refl) as He.
  pose proof (validateField_validating (isValidating s) eng name rs s eq_refl) as Hv.
  pose proof (validateField_frame eng name rs s s) as Hf.
  destruct Hf as (H1 & H2 & H3 & H4 & H5 & H6 & _).
  { unfold validation_frame. repeat split. }
  repeat split; assumption.
Qed.

(** Pushing a list of reported entries never raises. *)
Lemma push_fold {A} (key msg : A -> string) (l : list A) (s : State) :
  fold_right (fun e k => push_error (key e) (msg e) ;; k) (ret tt) l s
  = (Ok tt, set_errors (pushed (map (fun e => (key e, msg e)) l) (errors s)) s).
Proof.
  unfold pushed. revert s. induction l as [|e rest IH]; intros s; simpl.
  - destruct s; reflexivity.
  - unfold bind, push_error, modify.
    destruct (obj_get (key e) (errors s)); simpl; rewrite IH; reflexivity.
Qed.


Lemma validate_zod_failure (eng : Engine) (z : ZodSchema) (s : State) (e : ErrObj) :
  activeSchema eng = Some (SZod z) ->
  parseAsync z (values_obj s) = Throw (ThrownObj e) ->
  let bag :=
    match reported_issues e with
    | Some l => pushed (issue_entries l) []
    | None => []
    end in
  validate eng s
  = (Ok (mkFormResult false (simple_errors bag)),
     set_isValidating false (set_errors bag s)).
Proof.
  intros Hsch Hparse. unfold validate. rewrite Hsch.
  unfold bind at 1 2. unfold modify at 1 2.
  unfold try_catch, bind at 1, gets at 1. simpl.
  change (values_obj (set_errors [] (set_isValidating true s))) with (values_obj s).
  unfold await at 1. rewrite Hparse. simpl.
  unfold reported_issues, issues_of, bind, ret.
  destruct (match err_issues e with Some l => Some l | None => err_errors e end)
    as [l|]; simpl.
  - rewrite (push_fold (fun i => as_key (hd_error (issue_path i))) issue_message).
    reflexivity.
  - reflexivity.
Qed.

Lemma validate_yup_failure (eng : Engine) (y : AnyObjectSchema) (s : State) (e : ErrObj) :
  activeSchema eng = Some (SYup y) ->
  validate_all y (values_obj s) = Throw (ThrownObj e) ->
  let bag :=
    match err_inner e with
    | Some l => pushed (inner_entries l) []
    | None => []
    end in
  validate eng s
  = (Ok (mkFormResult false (simple_errors bag)),
     set_isValidating false (set_errors bag s)).
Proof.
  intros Hsch Hparse. unfold validate. rewrite Hsch.
  unfold bind at 1 2. unfold modify at 1 2.
  unfold try_catch, bind at 1, gets at 1. simpl.
  change (values_obj (set_errors [] (set_isValidating true s))) with (values_obj s).
  unfold await at 1. rewrite Hparse. simpl.
  unfold inner_of, bind, ret.
  destruct (err_inner e) as [l|]; simpl.
  - rewrite (push_fold (fun i => as_key (inner_path i)) inner_message).
    reflexivity.
  - reflexivity.
Qed.

Lemma validate_zod_other (eng : Engine) (z : ZodSchema) (s : State) :
  activeSchema eng = Some (SZod z) ->
  (parseAsync z (values_obj s) = Ok tt ->
   validate eng s
   = (Ok (mkFormResult true []), set_isValidating false (set_errors [] s)))
  /\ (parseAsync z (values_obj s) = Throw ThrownNullish ->
      validate eng s
      = (Throw (TypeError "Cannot read properties of undefined"),
         set_errors [] (set_isValidating true s))).
Proof.
  intros Hsch.
  split; intros Hparse; unfold validate; rewrite Hsch;
    unfold bind at 1 2; unfold modify at 1 2;
    unfold try_catch, bind at 1, gets at 1; simpl;
    change (values_obj (set_errors [] (set_isValidating true s))) with (values_obj s);
    unfold await at 1; rewrite Hparse; reflexivity.
Qed.

Lemma validate_yup_other (eng : Engine) (y : AnyObjectSchema) (s : State) :
  activeSchema eng = Some (SYup y) ->
  (validate_all y (values_obj s) = Ok tt ->
   validate eng s
   = (Ok (mkFormResult true []), set_isValidating false (set_errors [] s)))
  /\ (validate_all y (values_obj s) = Throw ThrownNullish ->
      validate eng s
      = (Throw (TypeError "Cannot read properties of undefined"),
         set_errors [] (set_isValidating true s))).
Proof.
  intros Hsch.
  split; intros Hparse; unfold validate; rewrite Hsch;
    unfold bind at 1 2; unfold modify at 1 2;
    unfold try_catch, bind at 1, gets at 1; simpl;
    change (values_obj (set_errors [] (set_isValidating true s))) with (values_obj s);
    unfold await at 1; rewrite Hparse; reflexivity.
Qed.

Lemma validate_rules_cases (eng : Engine) (s : State) :
  isZodSchema eng = false -> isYupSchema eng = false ->
  validate eng s
  = match validate_fields eng (fieldRules s) true
            (set_errors [] (set_isValidating true s)) with
    | (Ok ok, s1) =>
        (Ok (mkFormResult ok (simple_errors (errors s1))),
         set_isValidating false s1)
    | (Throw err, s1) => (Throw err, s1)
    end.
Proof.
  unfold isZodSchema, isYupSchema, validate. intros Hz Hy.
  unfold bind at 1 2. unfold modify at 1 2.
  destruct (activeSchema eng) as [[z|y|r]|]; try discriminate;
    unfold bind at 1, gets at 1; unfold bind at 1; simpl;
    destruct (validate_fields eng (fieldRules s) true _) as [[ok|err] s1];
    reflexivity.
Qed.

(** [isValidating] after [validate]: cleared on every return, still
    set on every exit by an exception. *)
Lemma validate_flag_by_outcome (eng : Engine) (s : State) :
  isValidating (snd (validate eng s))
  = match fst (validate eng s) with
    | Ok _ => false
    | Throw _ => true
    end.
Proof.
  destruct (activeSchema eng) as [[z|y|r]|] eqn:Hsch.
  - destruct (parseAsync z (values_obj s)) as [[]|[|e]] eqn:Hp.
    + now rewrite (proj1 (validate_zod_other eng z s Hsch) Hp).
    + now rewrite (proj2 (validate_zod_other eng z s Hsch) Hp).
    + now rewrite (validate_zod_failure eng z s e Hsch Hp).
  - destruct (validate_all y (values_obj s)) as [[]|[|e]] eqn:Hp.
    + now rewrite (proj1 (validate_yup_other eng y s Hsch) Hp).
    + now rewrite (proj2 (validate_yup_other eng y s Hsch) Hp).
    + now rewrite (validate_yup_failure eng y s e Hsch Hp).
  - rewrite validate_rules_cases
      by (unfold isZodSchema, isYupSchema; now rewrite Hsch).
    pose proof (validate_fields_validating true eng (fieldRules s) true
                  (set_errors [] (set_isValidating true s)) eq_refl) as Hv.
    destruct (validate_fields eng _ true _) as [[ok|err] s1];
      [reflexivity|exact Hv].
  - rewrite validate_rules_cases
      by (unfold isZodSchema, isYupSchema; now rewrite Hsch).
    pose proof (validate_fields_validating true eng (fieldRules s) true
                  (set_errors [] (set_isValidating true s)) eq_refl) as Hv.
    destruct (validate_fields eng _ true _) as [[ok|err] s1];
      [reflexivity|exact Hv].
Qed.

(** X10: when [validate()] returns, [isValidating] is false; when it
    raises, [isValidating] is left true.  In both cases the values,
    the FieldMeta map, the registered rules, the submission state and
    the effects are as before the call. *)
Theorem validate_settles_isValidating (eng : Engine) (s : State) :
  let s' := snd (validate eng s) in
  isValidating s' = match fst (validate eng s) with
                    | Ok _ => false
                    | Throw _ => true
                    end
  /\ heap s' = heap s /\ values s' = values s
  /\ fieldsMeta s' = fieldsMeta s /\ fieldRules s' = fieldRules s
  /\ isSubmitting s' = isSubmitting s /\ submitCount s' = submitCount s
  /\ trace s' = trace s.
Proof.
  intros s'. subst s'. split; [apply validate_flag_by_outcome|].
  pose proof (validate_frame eng s s) as Hf.
  destruct Hf as (H1 & H2 & H3 & H4 & H5 & H6 & H7).
  { unfold validation_frame. repeat split. }
  repeat split; assumption.
Qed.




(** X13: when an external schema fails with an object that carries no
    issues (no list, or an empty one), [validate()] still returns
    [valid: false], with empty [errors] and an empty ErrorBag, so the
    form's [meta.valid] is true after a validation that reported
    invalid. *)
Theorem validate_unrecognized_failure_is_invalid (eng : Engine) (s : State) (e : ErrObj) :
  ((exists z, activeSchema eng = Some (SZod z)
              /\ parseAsync z (values_obj s) = Throw (ThrownObj e)
              /\ (reported_issues e = None \/ reported_issues e = Some []))
   \/ (exists y, activeSchema eng = Some (SYup y)
                 /\ validate_all y (values_obj s) = Throw (ThrownObj e)
                 /\ (err_inner e = None \/ err_inner e = Some []))) ->
  validate eng s
  = (Ok (mkFormResult false []), set_isValidating false (set_errors [] s))
  /\ FormMeta.valid (meta eng (snd (validate eng s))) = true.
Proof.
  intros [(z & Hsch & Hparse & Hl)|(y & Hsch & Hparse & Hl)].
  - rewrite (validate_zod_failure eng z s e Hsch Hparse).
    destruct Hl as [Hl|Hl]; rewrite Hl; split; reflexivity.
  - rewrite (validate_yup_failure eng y s e Hsch Hparse).
    destruct Hl as [Hl|Hl]; rewrite Hl; split; reflexivity.
Qed.


(** ** More on submission *)

(** X15: when validation answers invalid, a submit handler calls
    neither [onValid] nor [onSubmit]: without [onInvalid] it resolves
    in the state validation left, [isSubmitting] cleared; with
    [onInvalid] it hands it the ErrorBag, and a failure of that
    callback escapes with [isSubmitting] still set.  The attempt is
    counted, the values are untouched and the event, if any, has had
    its default prevented and its propagation stopped. *)
Theorem handleSubmit_invalid_skips_submission (eng : Engine)
    (onValid : option SubmitCallback) (onInvalid : option InvalidCallback)
    (e : option Event) (s : State) (r : FormResult) (s1 : State) :
  validate eng (submitting e s) = (Ok r, s1) ->
  form_valid r = false ->
  handleSubmit eng onValid onInvalid e s
  = match onInvalid with
    | None => (Ok tt, set_isSubmitting false s1)
    | Some cb =>
        match cb (errors s1) s1 with
        | (Ok _, s2) => (Ok tt, set_isSubmitting false s2)
        | (Throw err, s2) => (Throw err, s2)
        end
    end
  /\ submitCount s1 = (submitCount s + 1)%Z
  /\ isSubmitting s1 = true
  /\ heap s1 = heap s /\ values s1 = values s
  /\ trace s1 = trace s ++ match e with
                           | Some _ => [PreventDefault; StopPropagation]
                           | None => []
                           end.
Proof.
  intros Hval Hr.
  rewrite handleSubmit_cases, Hval, Hr.
  split; [destruct onInvalid; reflexivity|].
  pose proof (validate_frame eng (submitting e s) (submitting e s)) as Hf.
  rewrite Hval in Hf. simpl in Hf.
  destruct Hf as (Hh & Hv & _ & Hsub & Hc & _ & Ht).
  { unfold validation_frame. repeat split. }
  rewrite Hh, Hv, Hsub, Hc, Ht. unfold submitting.
  destruct e; simpl; repeat split; try reflexivity.
  - now rewrite <- app_assoc.
  - now rewrite app_nil_r.
Qed.

(** X16: when [validate()] raises inside a submit handler, the
    handler rejects with the same value in the state validation left:
    no callback runs, [isSubmitting] and [isValidating] stay true, and
    the attempt is counted. *)
Theorem handleSubmit_rejects_when_validation_raises (eng : Engine)
    (onValid : option SubmitCallback) (onInvalid : option InvalidCallback)
    (e : option Event) (s : State) (err : Thrown) (s1 : State) :
  validate eng (submitting e s) = (Throw err, s1) ->
  handleSubmit eng onValid onInvalid e s = (Throw err, s1)
  /\ isSubmitting s1 = true
  /\ isValidating s1 = true
  /\ submitCount s1 = (submitCount s + 1)%Z.
Proof.
  intros Hval. rewrite handleSubmit_cases, Hval.
  split; [reflexivity|].
  pose proof (validate_flag_by_outcome eng (submitting e s)) as Hv.
  pose proof (validate_frame eng (submitting e s) (submitting e s)) as Hf.
  rewrite Hval in Hv, Hf. simpl in Hv, Hf.
  destruct Hf as (_ & _ & _ & Hsub & Hc & _).
  { unfold validation_frame. repeat split. }
  rewrite Hsub, Hc. unfold submitting. destruct e; simpl; auto.
Qed.

(** ** Reset with a partial state *)




(** ** Registration and bindings *)






(** ** Touched flags in bulk, and construction *)

Lemma setTouched_state (fields : Obj bool) (s : State) :
  setTouched fields s
  = (Ok tt, set_fieldsMeta (touched_all fields (fieldsMeta s)) s).
Proof.
  unfold setTouched, touched_all. revert s.
  induction fields as [|[k t] rest IH]; intros s; simpl.
  - destruct s; reflexivity.
  - unfold bind. rewrite setFieldTouched_state. cbv iota beta.
    rewrite IH. reflexivity.
Qed.





(** [validate] starts by replacing the ErrorBag. *)
Lemma validate_ignores_errors (eng : Engine) (bag : Obj (list string)) (s : State) :
  validate eng (set_errors bag s) = validate eng s.
Proof. reflexivity. Qed.

(** X22: with [validateOnMount], the engine and state that [useForm]
    builds do not depend on [initialErrors]: the validation started
    at construction replaces the ErrorBag they seeded. *)
Theorem validateOnMount_discards_initialErrors (h : Heap)
    (initial : option loc) (ie1 ie2 : option (Obj string))
    (it : option (Obj bool)) (vs sch : option Schema)
    (cb : option SubmitCallback) :
  useForm h (Options.make initial ie1 it vs sch (Some true) cb)
  = useForm h (Options.make initial ie2 it vs sch (Some true) cb).
Proof.
  unfold useForm, active_schema.
  destruct initial as [l|]; destruct it as [fields|];
    cbn [Options.initialValues Options.initialErrors Options.initialTouched
         Options.validationSchema Options.schema
         Options.validateOnMount Options.onSubmit heap_alloc];
    rewrite ?setTouched_state; cbn [snd fst].
  all: match goal with
       | |- (?e, snd (validate ?e ?s1)) = (?e, snd (validate ?e ?s2)) =>
           change s1 with (set_errors (errors s1) (set_errors [] s1));
           change s2 with (set_errors (errors s2) (set_errors [] s1));
           rewrite !validate_ignores_errors; reflexivity
       end.
Qed.

(** ** The errors the Form component shows *)



(** ** The e-mail pattern *)

Lemma plain_plus_spec (s : string) :
  plain_plus s = true <-> s <> "" /\ all_plain s = true.
Proof.
  induction s as [|c rest IH]; simpl.
  - split; [discriminate|intros [H _]; congruence].
  - destruct rest as [|c' rest'].
    + simpl. rewrite andb_true_r. split; [intros H; split; [discriminate|exact H]|tauto].
    + rewrite andb_true_iff, IH. split.
      * intros (Hc & _ & Hr). split; [discriminate|]. now rewrite Hc, Hr.
      * intros (_ & H). apply andb_true_iff in H. destruct H as (Hc & Hr).
        repeat split; auto. discriminate.
Qed.

Lemma domain_part_spec (s : string) (seen : bool) :
  domain_part seen s = true
  <-> exists b c, s = (b ++ "." ++ c)%string
                  /\ (seen = true \/ b <> "")
                  /\ all_plain b = true /\ c <> "" /\ all_plain c = true.
Proof.
  revert seen. induction s as [|ch r IH]; intros seen; simpl.
  - split; [discriminate|].
    intros (b & c & H & _). destruct b; discriminate.
  - rewrite andb_true_iff, orb_true_iff, !andb_true_iff, IH, plain_plus_spec.
    split.
    + intros (Hch & [((Hseen & Hdot) & Hc & Hpc)|(b & c & Hr & _ & Hb & Hc & Hpc)]).
      * apply Ascii.eqb_eq in Hdot. subst ch.
        exists "", r. simpl. repeat split; auto.
      * exists (String ch b), c. simpl. rewrite Hr, Hch, Hb.
        repeat split; auto. right. discriminate.
    + intros (b & c & Hs & Hseen & Hb & Hc & Hpc).
      destruct b as [|ch' b']; simpl in *.
      * inversion Hs; subst. split; [reflexivity|]. left.
        destruct Hseen as [Hseen|Hne]; [|congruence].
        repeat split; auto.
      * inversion Hs; subst. apply andb_true_iff in Hb. destruct Hb as (Hch & Hb).
        split; [exact Hch|]. right. exists b', c. repeat split; auto.
Qed.

Lemma local_part_spec (s : string) (seen : bool) :
  local_part seen s = true
  <-> exists a r, s = (a ++ "@" ++ r)%string
                  /\ (seen = true \/ a <> "")
                  /\ all_plain a = true /\ domain_part false r = true.
Proof.
  revert seen. induction s as [|ch rest IH]; intros seen; simpl.
  - split; [discriminate|].
    intros (a & r & H & _). destruct a; discriminate.
  - destruct (ch =? "@")%char eqn:E.
    + apply Ascii.eqb_eq in E. subst ch. rewrite andb_true_iff. split.
      * intros (Hseen & Hd). exists "", rest. simpl. repeat split; auto.
      * intros (a & r & Hs & Hseen & Ha & Hd).
        destruct a as [|c a']; simpl in *.
        -- inversion Hs; subst. destruct Hseen; [tauto|congruence].
        -- inversion Hs; subst. simpl in Ha. discriminate.
    + rewrite andb_true_iff, IH. split.
      * intros (Hch & a & r & Hs & _ & Ha & Hd).
        exists (String ch a), r. simpl. rewrite Hs, Hch, Ha.
        repeat split; auto. right. discriminate.
      * intros (a & r & Hs & _ & Ha & Hd).
        destruct a as [|c a']; simpl in *.
        -- inversion Hs; subst. rewrite Ascii.eqb_refl in E. discriminate.
        -- inversion Hs; subst. apply andb_true_iff in Ha. destruct Ha as (Hc & Ha).
           split; [exact Hc|]. exists a', r. repeat split; auto.
Qed.

(** X24: the pattern of the [email] rule accepts exactly the strings
    [a@b.c] with [a], [b], [c] not empty and free of white space and
    of [@]. *)
Theorem email_test_accepts_local_at_domain_dot_tld (s : string) :
  email_test s = true
  <-> exists a b c,
        s = (a ++ "@" ++ b ++ "." ++ c)%string
        /\ a <> "" /\ b <> "" /\ c <> ""
        /\ all_plain a = true /\ all_plain b = true /\ all_plain c = true.
Proof.
  unfold email_test. rewrite local_part_spec. split.
  - intros (a & r & Hs & Ha & Hpa & Hd).
    apply domain_part_spec in Hd. destruct Hd as (b & c & Hr & Hb & Hpb & Hc & Hpc).
    exists a, b, c. subst r.
    repeat split; auto.
    + destruct Ha; [discriminate|assumption].
    + destruct Hb; [discriminate|assumption].
  - intros (a & b & c & Hs & Ha & Hb & Hc & Hpa & Hpb & Hpc).
    exists a, (b ++ "." ++ c)%string. repeat split; auto.
    apply domain_part_spec. exists b, c. repeat split; auto.
Qed.

(** ** Rules on a value that is not set *)

Lemma rule_fails_unset (v : JsVal) (r : ValidationRule) :
  v = VUndefined \/ v = VNull -> rule_fails v r = Ok (is_required r).
Proof.
  intros [-> | ->]; unfold rule_fails, is_required; destruct (type r); reflexivity.
Qed.

(** X25: on [undefined] and on [null], [validateValue] returns the
    message of the first [required] rule of the list and no error
    when there is none: no other rule fails on a value that is not
    set, and no pattern or predicate is run. *)
Theorem validateValue_unset_only_required_fails (rs : list ValidationRule) :
  validateValue VUndefined rs = Ok (option_map message (find is_required rs))
  /\ validateValue VNull rs = Ok (option_map message (find is_required rs)).
Proof.
  split; induction rs as [|r rest IH]; simpl; auto;
    rewrite rule_fails_unset by auto; destruct (is_required r); auto.
Qed.

(** ** The pending flag *)

Lemma Forall_obj_set {A} (Q : string * A -> Prop) (k : string) (v : A) (o : Obj A) :
  (forall k', Q (k', v)) -> Forall Q o -> Forall Q (obj_set k v o).
Proof.
  intros Hv. induction 1 as [|[k0 v0] rest H0 Hrest IH]; simpl.
  - constructor; auto.
  - destruct (k0 =? k); constructor; auto.
Qed.

Lemma Forall_obj_get {A} (Q : A -> Prop) (k : string) (v : A) (o : Obj A) :
  Forall (fun kv => Q (snd kv)) o -> obj_get k o = Some v -> Q v.
Proof.
  induction 1 as [|[k0 v0] rest H0 Hrest IH]; simpl; [discriminate|].
  destruct (k0 =? k); [intros H; inversion H; subst; exact H0|exact IH].
Qed.

Lemma never_pending_set (name : string) (m : FieldMeta) (s : State) :
  pending m = false -> never_pending s ->
  never_pending (set_fieldsMeta (obj_set name m (fieldsMeta s)) s).
Proof.
  intros Hm Hs. unfold never_pending in *. simpl.
  apply Forall_obj_set; auto.
Qed.

Lemma ensure_meta_pending (name : string) (t : bool) :
  preserves never_pending (ensure_meta name t).
Proof.
  intros s Hs. unfold ensure_meta, bind, gets, modify, ret.
  destruct (obj_get name (fieldsMeta s)); simpl; auto.
  now apply never_pending_set.
Qed.

Lemma update_meta_pending (name : string) (f : FieldMeta -> FieldMeta) :
  (forall m, pending (f m) = pending m) ->
  preserves never_pending (update_meta name f).
Proof.
  intros Hf s Hs. unfold update_meta, modify. simpl.
  destruct (obj_get name (fieldsMeta s)) as [m|] eqn:Hm; auto.
  apply never_pending_set; auto. rewrite Hf.
  exact (Forall_obj_get (fun m => pending m = false) name m (fieldsMeta s) Hs Hm).
Qed.

Lemma never_pending_assign (ts : Obj bool) (s : State) :
  never_pending s ->
  never_pending (set_fieldsMeta (obj_assign_each new_meta ts (fieldsMeta s)) s).
Proof.
  unfold never_pending, obj_assign_each. simpl.
  generalize (fieldsMeta s). induction ts as [|[k t] rest IH]; intros fm Hfm; simpl; auto.
  apply IH. apply Forall_obj_set; auto.
Qed.

Ltac pending_step := idtac;
  match goal with
  | H : never_pending _ |- never_pending _ =>
      first
        [ apply never_pending_set; [reflexivity|assumption]
        | apply never_pending_assign; assumption
        | unfold never_pending in *; simpl;
          repeat match goal with
                 | |- context [match ?x with _ => _ end] => destruct x; simpl
                 end;
          first [exact H | constructor] ]
  end.

Ltac pending_tac :=
  preserve_with pending_step;
  auto using ensure_meta_pending, update_meta_pending.

Lemma setFieldValue_pending (name : string) (v : JsVal) :
  preserves never_pending (setFieldValue name v).
Proof. unfold setFieldValue. pending_tac. Qed.

Lemma setFieldTouched_pending (name : string) (t : bool) :
  preserves never_pending (setFieldTouched name t).
Proof. unfold setFieldTouched. pending_tac. Qed.

Lemma setFieldError_pending (name err : string) :
  preserves never_pending (setFieldError name err).
Proof. unfold setFieldError. pending_tac. Qed.

Lemma getFieldMeta_pending (name : string) :
  preserves never_pending (getFieldMeta name).
Proof. unfold getFieldMeta, getFieldError. pending_tac. Qed.

Lemma validateField_pending (eng : Engine) (name : string)
    (rs : option (list ValidationRule)) :
  preserves never_pending (validateField eng name rs).
Proof.
  unfold validateField, validateField_rules, issues_of, message_of, delete_error.
  pending_tac.
Qed.

Lemma validate_pending (eng : Engine) : preserves never_pending (validate eng).
Proof.
  intros s Hs. unfold never_pending.
  destruct (validate_frame eng s s) as (_ & _ & Hfm & _).
  { unfold validation_frame. repeat split. }
  now rewrite Hfm.
Qed.

Lemma resetForm_pending (eng : Engine) (state : option PartialState.t) :
  preserves never_pending (resetForm eng state).
Proof. unfold resetForm. pending_tac. Qed.

Lemma ctx_call_pending (eng : Engine) (c : CtxCall) :
  preserves never_pending (ctx_call (submissionContext eng) c).
Proof.
  destruct c; simpl.
  - apply resetForm_pending.
  - apply preserves_forEach. intros k v. apply setFieldError_pending.
  - apply setFieldError_pending.
  - apply setFieldValue_pending.
  - apply preserves_forEach. intros k v. apply setFieldValue_pending.
  - apply setFieldTouched_pending.
  - apply preserves_forEach. intros k v. apply setFieldTouched_pending.
Qed.

Lemma run_script_pending (eng : Engine) (sc : Script) :
  preserves never_pending (run_script (submissionContext eng) sc).
Proof.
  unfold run_script. apply preserves_bind.
  - induction (calls sc) as [|c rest IH]; simpl.
    + apply preserves_ret.
    + apply preserves_bind; [apply ctx_call_pending|intros ?; exact IH].
  - intros ?. destruct (failure sc); [apply preserves_throw|apply preserves_ret].
Qed.

Lemma handleSubmit_pending (eng : Engine) (onValid onInvalid osc : option Script)
    (e : option Event) :
  onSubmit eng = option_map script_callback osc ->
  preserves never_pending
    (handleSubmit eng (option_map script_callback onValid)
       (option_map (script_invalid eng) onInvalid) e).
Proof.
  intros Hsub. unfold handleSubmit.
  apply preserves_bind; [pending_tac|intros ?].
  apply preserves_bind; [pending_tac|intros ?].
  apply preserves_bind; [pending_tac|intros ?].
  apply preserves_bind; [apply validate_pending|intros r].
  apply preserves_bind; [|intros ?; pending_tac].
  destruct (form_valid r).
  - apply preserves_try_catch; [|intros err; pending_tac].
    destruct onValid as [sc|]; simpl.
    + apply preserves_bind; [apply preserves_gets|intros vals].
      apply run_script_pending.
    + rewrite Hsub. destruct osc as [sc|]; simpl; [|apply preserves_ret].
      apply preserves_bind; [apply preserves_gets|intros vals].
      apply run_script_pending.
  - destruct onInvalid as [sc|]; simpl; [|apply preserves_ret].
    apply preserves_bind; [apply preserves_gets|intros bag].
    apply run_script_pending.
Qed.

Lemma binding_pending (eng : Engine) (name : string)
    (rs : option (list ValidationRule)) (on : ValidateOn) (use : BindingUse) :
  preserves never_pending
    match use with
    | UseNothing => ret tt
    | UseValue => binding_value (binding eng name rs on) ;; ret tt
    | UseInput text => onInput (binding eng name rs on) text
    | UseBlur => onBlur (binding eng name rs on)
    end.
Proof.
  destruct use; simpl.
  - apply preserves_ret.
  - pending_tac.
  - apply preserves_bind; [apply setFieldValue_pending|intros ?].
    destruct on; try apply preserves_ret.
    apply preserves_detached, validateField_pending.
  - apply preserves_bind; [apply ensure_meta_pending|intros ?].
    apply preserves_bind; [apply update_meta_pending; reflexivity|intros ?].
    destruct on; try apply preserves_ret.
    apply preserves_detached, validateField_pending.
Qed.

Lemma register_pending (eng : Engine) (name : string)
    (options : option RegisterOptions) :
  preserves never_pending (register eng name options).
Proof. unfold register. pending_tac. Qed.

Lemma run_op_pending (eng : Engine) (osc : option Script) (op : Op) (s : State) :
  onSubmit eng = option_map script_callback osc ->
  never_pending s -> never_pending (run_op eng op s).
Proof.
  intros Hsub H. destruct op; unfold run_op, submitForm, handleReset.
  - now apply setFieldValue_pending.
  - revert H. apply preserves_forEach. intros k v. apply setFieldValue_pending.
  - now apply setFieldError_pending.
  - revert H. apply preserves_forEach. intros k v. apply setFieldError_pending.
  - exact H.
  - now apply setFieldTouched_pending.
  - revert H. apply preserves_forEach. intros k v. apply setFieldTouched_pending.
  - exact H.
  - now apply getFieldMeta_pending.
  - now apply validateField_pending.
  - now apply validate_pending.
  - now apply (handleSubmit_pending eng onValid onInvalid osc).
  - now apply (handleSubmit_pending eng None None osc).
  - now apply resetForm_pending.
  - now apply resetForm_pending.
  - unfold bind.
    destruct (register_returns eng name options s) as (rs & on & Hb).
    pose proof (register_pending eng name options s H) as Hr.
    destruct (register eng name options s) as [[b|err] s1]; simpl in *.
    + inversion Hb; subst b. now apply binding_pending.
    + exact Hr.
  - exact H.
Qed.

Lemma useForm_pending (h : Heap) (options : Options.t) :
  never_pending (snd (useForm h options)).
Proof.
  unfold useForm.
  destruct (Options.initialValues options) as [l|]; simpl.
  - set (eng := mkEngine _ _ _).
    set (s0 := mkState _ _ _ _ _ _ _ _ _).
    assert (H1 : never_pending
                   match Options.initialTouched options with
                   | Some it => snd (setTouched it s0)
                   | None => s0
                   end).
    { destruct (Options.initialTouched options) as [it|]; [|constructor].
      apply (preserves_forEach never_pending setFieldTouched it);
        [intros k v; apply setFieldTouched_pending|constructor]. }
    destruct (Options.validateOnMount options) as [[|]|]; simpl; auto.
    now apply validate_pending.
  - set (eng := mkEngine _ _ _).
    set (s0 := mkState _ _ _ _ _ _ _ _ _).
    assert (H1 : never_pending
                   match Options.initialTouched options with
                   | Some it => snd (setTouched it s0)
                   | None => s0
                   end).
    { destruct (Options.initialTouched options) as [it|]; [|constructor].
      apply (preserves_forEach never_pending setFieldTouched it);
        [intros k v; apply setFieldTouched_pending|constructor]. }
    destruct (Options.validateOnMount options) as [[|]|]; simpl; auto.
    now apply validate_pending.
Qed.

(** X26: in every state an engine reaches from [useForm] by the
    operations of its interface, no FieldMeta is pending and the
    form's [meta.pending] is false. *)
Theorem meta_pending_is_never_true
    (h : Heap) (initial : option loc) (initialErrors : option (Obj string))
    (initialTouched : option (Obj bool))
    (validationSchema schema : option Schema) (validateOnMount : option bool)
    (onSubmit : option Script) (ops : list Op) :
  let options :=
    Options.make initial initialErrors initialTouched validationSchema schema
      validateOnMount (option_map script_callback onSubmit) in
  let eng := fst (useForm h options) in
  let s := run_ops eng ops (snd (useForm h options)) in
  FormMeta.pending (meta eng s) = false
  /\ (forall name m, obj_get name (fieldsMeta s) = Some m -> pending m = false).
Proof.
  intros options eng s.
  assert (Hs : never_pending s).
  { unfold s, run_ops.
    pose proof (useForm_pending h options) as H0.
    revert H0. generalize (snd (useForm h options)).
    induction ops as [|op rest IH]; intros st Hst; simpl; auto.
    apply IH. apply (run_op_pending eng onSubmit); auto.
    unfold eng. now rewrite useForm_onSubmit. }
  split.
  - unfold meta, some_field. simpl.
    unfold never_pending in Hs. induction Hs as [|kv rest Hkv _ IH]; simpl; auto.
    now rewrite Hkv, IH.
  - intros name m Hm.
    exact (Forall_obj_get (fun m => pending m = false) name m (fieldsMeta s) Hs Hm).
Qed.

(** ** One field and the whole form under an object schema *)





(** ** Instances *)

Ltac distinct := unfold distinct_keys; simpl; repeat constructor; simpl; intuition discriminate.

Ltac ordinary :=
  unfold ordinary_keys; simpl; intros ? ?;
  repeat match goal with
         | H : _ \/ _ |- _ => destruct H
         | H : False |- _ => destruct H
         end; subst; reflexivity.


Lemma setServerErrors_merges_witness :
  getFieldError "email" (snd (setServerErrors sample_server_errors sample_state))
  = (Ok None, snd (setServerErrors sample_server_errors sample_state))
  /\ FormMeta.valid
       (meta sample_engine (snd (setServerErrors sample_server_errors sample_state)))
     = false.
Proof.
  apply (proj2 (setServerErrors_merges sample_engine sample_server_errors
                  sample_state ltac:(distinct))).
  reflexivity.
Defined.

Lemma setValues_sets_each_value_witness :
  js_get "age" (values_obj (snd (setValues sample_fields sample_state))) = VNum 30.
Proof.
  pose proof (setValues_sets_each_value sample_engine sample_fields sample_state
                ltac:(unfold allocated; simpl; lia) ltac:(distinct)
                ltac:(ordinary)) as H.
  destruct H as (_ & Hv & _). exact (Hv "age").
Defined.


Lemma validateField_touches_only_its_entry_witness :
  obj_get "email"
    (errors (snd (validateField sample_engine "name" None
                    (snd (setErrors sample_errors sample_state)))))
  = Some ["Email is invalid"].
Proof.
  pose proof (validateField_touches_only_its_entry sample_engine "name" "email"
                None (snd (setErrors sample_errors sample_state))
                ltac:(discriminate)) as H.
  destruct H as (He & _). exact He.
Defined.




Lemma validate_unrecognized_failure_is_invalid_witness :
  fst (validate broken_zod_engine broken_zod_state) = Ok (mkFormResult false [])
  /\ FormMeta.valid (meta broken_zod_engine (snd (validate broken_zod_engine broken_zod_state)))
     = true.
Proof.
  destruct (validate_unrecognized_failure_is_invalid broken_zod_engine
              broken_zod_state plain_error) as (Hrun & Hmeta).
  - left. exists broken_zod. split; [reflexivity|]. split; [reflexivity|].
    left. reflexivity.
  - rewrite Hrun. split; [reflexivity|]. rewrite Hrun in Hmeta. exact Hmeta.
Defined.


Lemma handleSubmit_invalid_skips_submission_witness :
  handleSubmit two_engine (Some rejecting) None None two_state
  = (Ok tt, set_isSubmitting false
              (snd (validate two_engine (submitting None two_state)))).
Proof.
  apply (handleSubmit_invalid_skips_submission two_engine (Some rejecting) None
           None two_state
           (mkFormResult false
              [("name", Some "Name is required"); ("email", Some "Invalid email")])
           (snd (validate two_engine (submitting None two_state)))).
  - reflexivity.
  - reflexivity.
Defined.

Lemma handleSubmit_rejects_when_validation_raises_witness :
  handleSubmit trim_engine None None None trim_state
  = (Throw (TypeError "v.trim is not a function"),
     snd (validate trim_engine (submitting None trim_state)))
  /\ isSubmitting (snd (validate trim_engine (submitting None trim_state))) = true.
Proof.
  pose proof (handleSubmit_rejects_when_validation_raises trim_engine None None
                None trim_state (TypeError "v.trim is not a function")
                (snd (validate trim_engine (submitting None trim_state)))
                eq_refl) as H.
  destruct H as (Hrun & Hsub & _). split; [exact Hrun|exact Hsub].
Defined.





